(** * FSM-driven interactor: event specifications and raw-event translation

    A shallow embedding of [out/EventSpec.js] (class [EventSpec]) and of
    [src/FSMInteractor.ts] (class [FSMInteractor]), together with the
    properties of the event-specification matcher and of the raw-event
    translator.

    Conventions of the embedding
    - An object reference is a record carrying its allocation identity;
      JavaScript's [===] and [Array.prototype.includes] on objects are
      equality of these records.
    - Coordinates are canvas pixel positions, modelled as [Z]; [===] on
      them is [Z.eqb] (no NaN, no signed zero).
    - Calls that leave the class (the FSM's [actOnEvent], the hosting
      Root's [damage], [Err.emit]) are recorded, in call order, in a
      trace of [Effect]s returned next to the new object state. *)

From Stdlib Require Import List String Ascii ZArith Bool Lia.
Import ListNotations.
Open Scope string_scope.
Open Scope Z_scope.
Open Scope list_scope.

(* ================================================================== *)
(** ** Shared data *)
(* ================================================================== *)

(** The eight strings of [evtTypeStrings], as an enumeration. *)
Inductive EvtType : Type :=
| press | release | release_none | enter | exit
| move_inside | any | nevermatch.

Definition EvtType_eqb (a b : EvtType) : bool :=
  match a, b with
  | press, press | release, release | release_none, release_none
  | enter, enter | exit, exit | move_inside, move_inside
  | any, any | nevermatch, nevermatch => true
  | _, _ => false
  end.

Definition evtTypeString (k : EvtType) : string :=
  match k with
  | press => "press" | release => "release"
  | release_none => "release_none" | enter => "enter" | exit => "exit"
  | move_inside => "move_inside" | any => "any"
  | nevermatch => "nevermatch"
  end.

(** [const evtTypeStrings = ['press', 'release', ...]] *)
Definition evtTypeStrings : list string :=
  map evtTypeString
      [press; release; release_none; enter; exit; move_inside; any; nevermatch].

(** Reading a member of [evtTypeStrings] back as an [EvtType]. *)
Definition evtType_of_string (s : string) : option EvtType :=
  find (fun k => String.eqb (evtTypeString k) s)
       [press; release; release_none; enter; exit; move_inside; any; nevermatch].

(** A [Region] object.  [rid] is the identity of the object (two regions
    are the same reference exactly when the records are equal); [rname]
    is its [name] property.  Geometry and images stay outside. *)
Record Region : Type := mkRegion { rid : nat; rname : string }.

Definition Region_eqb (a b : Region) : bool :=
  Nat.eqb (rid a) (rid b) && String.eqb (rname a) (rname b).

(** [regn === this.region] on [Region | undefined]. *)
Definition optRegion_eqb (a b : option Region) : bool :=
  match a, b with
  | None, None => true
  | Some x, Some y => Region_eqb x y
  | _, _ => false
  end.

(** The hosting [Root] object, known by its identity only. *)
Record Root : Type := mkRoot { rootId : nat }.

Definition Root_eqb (a b : Root) : bool := Nat.eqb (rootId a) (rootId b).

Definition optRoot_eqb (a b : option Root) : bool :=
  match a, b with
  | None, None => true
  | Some x, Some y => Root_eqb x y
  | _, _ => false
  end.

(** Calls leaving the two classes, in the order they are made. *)
Inductive Effect : Type :=
| ActOnEvent (k : EvtType) (regn : option Region) (* fsm.actOnEvent(k, regn) *)
| RootDamage (p : Root)                           (* parent.damage()         *)
| ErrEmit (msg : string).                         (* Err.emit(msg)           *)

(* ================================================================== *)
(** ** out/EventSpec.js *)
(* ================================================================== *)

Module EventSpec.

(** The three fields set by the constructor. *)
Record t : Type := mk {
  evtType    : EvtType;
  regionName : string;
  region     : option Region
}.

(** [constructor(evtTyp, regionName)]: [_region] starts [undefined]. *)
Definition new (evtTyp : EvtType) (name : string) : t :=
  mk evtTyp name None.

Definition set_region (es : t) (r : option Region) : t :=
  mk (evtType es) (regionName es) r.

(** A value arriving from parsed JSON: a string or anything else. *)
Inductive JsVal : Type :=
| JsString (s : string)
| JsOther.

(** Modelled from the spec: [Check.limitedString] ([Check.js] is not part
    of the sources at hand).  A string outside the allowed list, or a
    value that is no string, is coerced to the default. *)
Definition limitedString (v : JsVal) (limitedTo : list string)
    (defaultVal : string) : string :=
  match v with
  | JsString s =>
      if existsb (String.eqb s) limitedTo then s else defaultVal
  | JsOther => defaultVal
  end.

(** Modelled from the spec: [Check.stringVal] ([Check.js] is not part of
    the sources at hand).  A missing or non-string value is a hard parse
    error, here [None]. *)
Definition stringVal (v : JsVal) : option string :=
  match v with
  | JsString s => Some s
  | JsOther => None
  end.

(** [static fromJson(evt)], applied to [evt.evtType] and [evt.region]. *)
Definition fromJson (evt_evtType evt_region : JsVal) : option t :=
  let evtType := limitedString evt_evtType evtTypeStrings "nevermatch" in
  match stringVal evt_region with
  | None => None
  | Some region =>
      match evtType_of_string evtType with
      | Some k => Some (new k region)
      | None => None
      end
  end.

(** The [for] loop of [bindRegion]: the first region of the list whose
    name is the wanted one. *)
Fixpoint scanRegions (regionList : list Region) (name : string)
    : option Region :=
  match regionList with
  | [] => None
  | r :: rest =>
      if String.eqb (rname r) name then Some r else scanRegions rest name
  end.

(** The text handed to [Err.emit] by [bindRegion]. *)
Definition bindErrorMessage (name : string) : string :=
  ("Region '" ++ name ++ "'" ++
   " in event specification does not match any region.")%string.

(** [bindRegion(regionList)]: the specification afterwards and the calls
    made to [Err.emit]. *)
Definition bindRegion (es : t) (regionList : list Region)
    : t * list Effect :=
  if String.eqb (regionName es) "*" then (set_region es None, [])
  else
    match scanRegions regionList (regionName es) with
    | Some r => (set_region es (Some r), [])
    | None =>
        if EvtType_eqb (evtType es) nevermatch then (es, [])
        else if (EvtType_eqb (evtType es) release_none
                 || EvtType_eqb (evtType es) any)
                && String.eqb (regionName es) ""
        then (set_region es None, [])
        else (es, [ErrEmit (bindErrorMessage (regionName es))])
    end.

(** [match(evtType, regn)] *)
Definition match_ (es : t) (k : EvtType) (regn : option Region) : bool :=
  if String.eqb (regionName es) "*" && optRegion_eqb (region es) None
  then true
  else if EvtType_eqb (evtType es) release_none
  then EvtType_eqb k (evtType es)
  else EvtType_eqb k (evtType es) && optRegion_eqb regn (region es).

(** No region of the list carries the given name. *)
Definition nameAbsent (name : string) (regionList : list Region) : bool :=
  negb (existsb (fun r => String.eqb (rname r) name) regionList).

(** The forms [bindRegion] accepts without a region: [nevermatch], and
    [release_none] or [any] with an empty region name. *)
Definition exempt (es : t) : bool :=
  EvtType_eqb (evtType es) nevermatch
  || ((EvtType_eqb (evtType es) release_none
       || EvtType_eqb (evtType es) any)
      && String.eqb (regionName es) "").

(** [debugTag()] *)
Definition debugTag (es : t) : string :=
  ("EventSpec(" ++ evtTypeString (evtType es) ++ " " ++ regionName es
   ++ ")")%string.

(** The [for] loop of [debugString]: [indent] times [result += '  ']. *)
Fixpoint indentLoop (indent : nat) (result : string) : string :=
  match indent with
  | O => result
  | S n => indentLoop n (result ++ "  ")%string
  end.

(** [debugString(indent)]; [!this.region] holds exactly when the region
    is [undefined]. *)
Definition debugString (es : t) (indent : nat) : string :=
  let result := indentLoop indent "" in
  let result :=
    (result ++ (evtTypeString (evtType es) ++ " " ++ regionName es))%string in
  match region es with
  | None => (result ++ " unbound")%string
  | Some _ => result
  end.

End EventSpec.

(* ================================================================== *)
(** ** src/FSMInteractor.ts *)
(* ================================================================== *)

(** What the interactor consumes of the [Region] class besides identity:
    the hit test [region.pick(localX, localY)]. *)
Class RegionGeometry : Type := {
  regionPick : Region -> Z -> Z -> bool
}.

(** What the interactor reads of its [FSM]: the object itself and its
    [regions] array, in drawing order. *)
Record FSM : Type := mkFSM { fsmId : nat; regions : list Region }.

(** The first parameter of [dispatchRawEvent]. *)
Inductive RawKind : Type := RawPress | RawMove | RawRelease.

(** What [draw] reads of a [Region]: its position [x], [y]. *)
Class RegionPlacement : Type := {
  regionX : Region -> Z;
  regionY : Region -> Z
}.

(** Transforms of a drawing context, with [translate(x, y)]. *)
Class Translating (T : Type) : Type := {
  translateBy : T -> Z -> Z -> T
}.

(** What [draw] touches of a [CanvasRenderingContext2D]: the current
    transform, the stack of saved states, and the calls of
    [region.draw(ctx, showDebugging)] made so far, each with the
    transform in force when it was made.  [Region.draw] is taken to
    leave transform and stack as it found them. *)
Record Canvas (T : Type) : Type := mkCanvas {
  transform : T;
  saved     : list T;
  painted   : list (Region * T * bool)
}.
Arguments mkCanvas {T}.
Arguments transform {T}.
Arguments saved {T}.
Arguments painted {T}.

(** [ctx.save()] *)
Definition ctxSave {T : Type} (ctx : Canvas T) : Canvas T :=
  mkCanvas (transform ctx) (transform ctx :: saved ctx) (painted ctx).

(** [ctx.translate(x, y)] *)
Definition ctxTranslate {T : Type} {Tr : Translating T} (ctx : Canvas T)
    (x y : Z) : Canvas T :=
  mkCanvas (translateBy (transform ctx) x y) (saved ctx) (painted ctx).

(** [ctx.restore()]: pops a saved state, or does nothing when there is
    none. *)
Definition ctxRestore {T : Type} (ctx : Canvas T) : Canvas T :=
  match saved ctx with
  | [] => ctx
  | s :: rest => mkCanvas s rest (painted ctx)
  end.

(** [region.draw(ctx, showDebugging)] *)
Definition regionDraw {T : Type} (r : Region) (showDebugging : bool)
    (ctx : Canvas T) : Canvas T :=
  mkCanvas (transform ctx) (saved ctx)
           (painted ctx ++ [(r, transform ctx, showDebugging)]).

Module FSMInteractor.

Record t : Type := mk {
  _fsm     : option FSM;
  _x       : Z;
  _y       : Z;
  _parent  : option Root;
  _visited : list Region
}.

(** [constructor(fsm, x, y, parent)] *)
Definition new (fsm : option FSM) (x y : Z) (parent : option Root) : t :=
  mk fsm x y parent [].

Definition with_x (it : t) (v : Z) : t :=
  mk (_fsm it) v (_y it) (_parent it) (_visited it).
Definition with_y (it : t) (v : Z) : t :=
  mk (_fsm it) (_x it) v (_parent it) (_visited it).
Definition with_parent (it : t) (v : option Root) : t :=
  mk (_fsm it) (_x it) (_y it) v (_visited it).
Definition with_fsm (it : t) (v : option FSM) : t :=
  mk v (_x it) (_y it) (_parent it) (_visited it).
Definition with_visited (it : t) (v : list Region) : t :=
  mk (_fsm it) (_x it) (_y it) (_parent it) v.

(** [damage()]: [this.parent?.damage()] *)
Definition damage (it : t) : list Effect :=
  match _parent it with
  | Some p => [RootDamage p]
  | None => []
  end.

(** [set x(v)] *)
Definition set_x (it : t) (v : Z) : t * list Effect :=
  if negb (Z.eqb (_x it) v)
  then (with_x it v, damage (with_x it v))
  else (it, []).

(** [set y(v)] *)
Definition set_y (it : t) (v : Z) : t * list Effect :=
  if negb (Z.eqb (_y it) v)
  then (with_y it v, damage (with_y it v))
  else (it, []).

(** [get position()] *)
Definition position (it : t) : Z * Z := (_x it, _y it).

(** [set position(v)].  Its last statement is [this.parent?.damage;],
    which reads the method and does not call it. *)
Definition set_position (it : t) (v : Z * Z) : t * list Effect :=
  if negb (Z.eqb (fst v) (_x it)) || negb (Z.eqb (snd v) (_y it))
  then (with_y (with_x it (fst v)) (snd v), [])
  else (it, []).

(** [set parent(v)] *)
Definition set_parent (it : t) (v : option Root) : t * list Effect :=
  if negb (optRoot_eqb (_parent it) v)
  then (with_parent it v, damage it ++ damage (with_parent it v))
  else (it, []).

(** [Array.prototype.includes] on an array of regions. *)
Definition includes (l : list Region) (r : Region) : bool :=
  existsb (Region_eqb r) l.

(** [pick(localX, localY)]: push every hit region, then reverse. *)
Definition pick {G : RegionGeometry} (it : t) (localX localY : Z)
    : list Region :=
  match _fsm it with
  | None => []
  | Some f =>
      rev (fold_left
             (fun pickList r =>
                if regionPick r localX localY then pickList ++ [r]
                else pickList)
             (regions f) [])
  end.

(** [all_exit(v)] *)
Definition all_exit (it : t) (v : list Region) : list Region :=
  fold_left
    (fun exits r => if negb (includes v r) then exits ++ [r] else exits)
    (_visited it) [].

(** [all_enter(v)] *)
Definition all_enter (it : t) (v : list Region) : list Region :=
  fold_left
    (fun enters r =>
       if negb (includes (_visited it) r) then enters ++ [r] else enters)
    v [].

(** [all_move_inside(v)] *)
Definition all_move_inside (it : t) (v : list Region) : list Region :=
  fold_left
    (fun move_insides r =>
       if includes (_visited it) r then move_insides ++ [r]
       else move_insides)
    v [].

(** [this.fsm?.actOnEvent(k, regn)] *)
Definition actOnEvent (it : t) (k : EvtType) (regn : option Region)
    : list Effect :=
  match _fsm it with
  | Some _ => [ActOnEvent k regn]
  | None => []
  end.

(** [l.forEach(element => this.fsm?.actOnEvent(k, element))], continuing
    the trace [tr]. *)
Definition forEachAct (it : t) (k : EvtType) (l : list Region)
    (tr : list Effect) : list Effect :=
  fold_left (fun tr element => tr ++ actOnEvent it k (Some element)) l tr.

(** [dispatchRawEvent(what, localX, localY)] *)
Definition dispatchRawEvent {G : RegionGeometry} (it : t) (what : RawKind)
    (localX localY : Z) : t * list Effect :=
  match _fsm it with
  | None => (it, [])
  | Some _ =>
      let regions := pick it localX localY in
      let exits := all_exit it regions in
      let tr := forEachAct it exit exits [] in
      let enters := all_enter it regions in
      let tr := forEachAct it enter enters tr in
      let tr :=
        match what with
        | RawPress => forEachAct it press regions tr
        | RawMove =>
            let move_insides := all_move_inside it regions in
            forEachAct it move_inside move_insides tr
        | RawRelease =>
            if Nat.eqb (List.length regions) 0
            then tr ++ actOnEvent it release_none None
            else forEachAct it release regions tr
        end in
      (with_visited it regions, tr)
  end.

(** The straight double quote, for messages that contain one. *)
Definition dquote : string := String (ascii_of_nat 34) EmptyString.

(** [startLoadFromJson(jsonLoc)], the continuation taken when the fetch
    fails: report and unset the FSM. *)
Definition loadFailed (it : t) (jsonLoc : string) : t * list Effect :=
  (with_fsm it None,
   [ErrEmit ("Load of FSM from " ++ dquote ++ jsonLoc ++ dquote
             ++ " failed")%string]).

(** [startLoadFromJson(jsonLoc)], the continuation taken when the
    description was fetched and [FSM.fromJson] built [f]: install it and
    declare damage. *)
Definition loadDone (it : t) (f : FSM) : t * list Effect :=
  (with_fsm it (Some f), damage (with_fsm it (Some f))).

(** [draw(ctx, showDebugging)] *)
Definition draw {P : RegionPlacement} {T : Type} {Tr : Translating T}
    (it : t) (ctx : Canvas T) (showDebugging : bool) : Canvas T :=
  match _fsm it with
  | None => ctx
  | Some f =>
      fold_left
        (fun ctx r =>
           let ctx := ctxSave ctx in
           let ctx := ctxTranslate ctx (regionX r) (regionY r) in
           let ctx := regionDraw r showDebugging ctx in
           ctxRestore ctx)
        (regions f) ctx
  end.

End FSMInteractor.

(* ================================================================== *)
(** ** Reading a trace *)
(* ================================================================== *)

(** The events of kind [k] handed to [actOnEvent], in order. *)
Definition isActOf (k : EvtType) (e : Effect) : bool :=
  match e with
  | ActOnEvent k' _ => EvtType_eqb k' k
  | _ => false
  end.

Definition eventsOf (k : EvtType) (tr : list Effect) : list Effect :=
  filter (isActOf k) tr.

(** The calls of [damage] on a Root, in order. *)
Definition isDamage (e : Effect) : bool :=
  match e with
  | RootDamage _ => true
  | _ => false
  end.

Definition damagesOf (tr : list Effect) : list Effect := filter isDamage tr.

(** [k] events for the regions of [l], in the order of [l]. *)
Definition acts (k : EvtType) (l : list Region) : list Effect :=
  map (fun r => ActOnEvent k (Some r)) l.

(** The regions leaving: visited, not picked, in visited order. *)
Definition exitsOf (visited picked : list Region) : list Region :=
  filter (fun r => negb (FSMInteractor.includes picked r)) visited.

(** The regions entered: picked, not visited, in pick order. *)
Definition entersOf (visited picked : list Region) : list Region :=
  filter (fun r => negb (FSMInteractor.includes visited r)) picked.

(** The regions stayed in: picked and visited, in pick order. *)
Definition staysOf (visited picked : list Region) : list Region :=
  filter (fun r => FSMInteractor.includes visited r) picked.

(** The events proper to a raw kind, for the visited set and the pick
    list of one sample. *)
Definition actionEvents (what : RawKind) (visited picked : list Region)
    : list Effect :=
  match what with
  | RawPress => acts press picked
  | RawMove =>
      acts move_inside (staysOf visited picked)
  | RawRelease =>
      match picked with
      | [] => [ActOnEvent release_none None]
      | _ :: _ => acts release picked
      end
  end.

(** The shape of an event the translator may hand over: one of the six
    region events, with a region for all of them but [release_none],
    which has none. *)
Definition deliverable (e : Effect) : bool :=
  match e with
  | ActOnEvent release_none None => true
  | ActOnEvent (exit | enter | press | move_inside | release) (Some _) => true
  | _ => false
  end.

(** How many events of kind [k] for region [r] a trace holds. *)
Definition countEvent (k : EvtType) (r : Region) (tr : list Effect) : nat :=
  List.length
    (filter (fun e =>
               match e with
               | ActOnEvent k' (Some r') => EvtType_eqb k' k && Region_eqb r' r
               | _ => false
               end) tr).

(** 1 when the list holds the region, 0 otherwise. *)
Definition holds (l : list Region) (r : Region) : nat :=
  if FSMInteractor.includes l r then 1%nat else 0%nat.

(** A host forwarding raw samples one after the other: the interactor
    after the last one and everything delivered on the way. *)
Fixpoint dispatchAll {G : RegionGeometry} (it : FSMInteractor.t)
    (samples : list (RawKind * Z * Z)) : FSMInteractor.t * list Effect :=
  match samples with
  | [] => (it, [])
  | (what, x, y) :: rest =>
      let (it1, tr1) := FSMInteractor.dispatchRawEvent it what x y in
      let (it2, tr2) := dispatchAll it1 rest in
      (it2, tr1 ++ tr2)
  end.

(** [n] copies of the two-space indent. *)
Fixpoint indentation (n : nat) : string :=
  match n with
  | O => ""
  | S m => ("  " ++ indentation m)%string
  end.

(* ================================================================== *)
(** ** Sample data: two overlapping regions *)
(* ================================================================== *)

Definition regionA : Region := mkRegion 1 "A".
Definition regionB : Region := mkRegion 2 "B".

Definition inSquare (lo hi px py : Z) : bool :=
  (lo <=? px) && (px <? hi) && (lo <=? py) && (py <? hi).

(** [A] covers the square from (0,0) to (10,10), [B] the square from
    (5,5) to (15,15); they overlap at (5,5). *)
Definition sampleGeometry : RegionGeometry :=
  {| regionPick := fun r px py =>
       if Nat.eqb (rid r) 1 then inSquare 0 10 px py
       else inSquare 5 15 px py |}.

(** [A] is drawn first, [B] second. *)
Definition sampleFSM : FSM := mkFSM 1 [regionA; regionB].
Definition sampleRoot : Root := mkRoot 1.

Definition sampleInteractor : FSMInteractor.t :=
  FSMInteractor.new (Some sampleFSM) 0 0 (Some sampleRoot).

(** The sample interactor after a press at (5,5), over both regions. *)
Definition pressedInteractor : FSMInteractor.t :=
  fst (FSMInteractor.dispatchRawEvent (G := sampleGeometry)
         sampleInteractor RawPress 5 5).

(** The pressed interactor after a later load of a description failed. *)
Definition orphanInteractor : FSMInteractor.t :=
  fst (FSMInteractor.loadFailed pressedInteractor "fsm.json").

(** [A] is placed at (0,0), [B] at (5,5). *)
Definition samplePlacement : RegionPlacement :=
  {| regionX := fun r => if Nat.eqb (rid r) 1 then 0 else 5;
     regionY := fun r => if Nat.eqb (rid r) 1 then 0 else 5 |}.

(** Transforms that are plain offsets. *)
Definition offsetTranslating : Translating (Z * Z) :=
  {| translateBy := fun t dx dy => (fst t + dx, snd t + dy) |}.

(** A context moved to (100,200) with nothing saved or painted. *)
Definition sampleCanvas : Canvas (Z * Z) := mkCanvas (100, 200) [] [].

(** A second description: one region [C], owned by no other FSM. *)
Definition regionC : Region := mkRegion 3 "C".
Definition otherFSM : FSM := mkFSM 2 [regionC].

(** A second hosting Root. *)
Definition otherRoot : Root := mkRoot 2.

(* ================================================================== *)
(** ** Equality tests and membership *)
(* ================================================================== *)

Lemma EvtType_eqb_eq (a b : EvtType) : EvtType_eqb a b = true <-> a = b.
Proof.
  split.
  - destruct a, b; simpl; intro H; try reflexivity; discriminate H.
  - intros ->. destruct b; reflexivity.
Qed.

Lemma EvtType_eqb_refl (a : EvtType) : EvtType_eqb a a = true.
Proof. destruct a; reflexivity. Qed.

Lemma EvtType_eqb_neq (a b : EvtType) : EvtType_eqb a b = false <-> a <> b.
Proof.
  split.
  - intros H ->. rewrite EvtType_eqb_refl in H. discriminate H.
  - intro H. destruct (EvtType_eqb a b) eqn:E; [|reflexivity].
    apply EvtType_eqb_eq in E. contradiction.
Qed.

Lemma Region_eqb_eq (a b : Region) : Region_eqb a b = true <-> a = b.
Proof.
  unfold Region_eqb. destruct a as [i n], b as [j m]; simpl.
  rewrite andb_true_iff, Nat.eqb_eq, String.eqb_eq.
  split.
  - intros [-> ->]. reflexivity.
  - intro H. injection H as -> ->. split; reflexivity.
Qed.

Lemma Region_eqb_refl (a : Region) : Region_eqb a a = true.
Proof. apply Region_eqb_eq. reflexivity. Qed.

Lemma optRegion_eqb_eq (a b : option Region) :
  optRegion_eqb a b = true <-> a = b.
Proof.
  destruct a as [x|], b as [y|]; simpl.
  - rewrite Region_eqb_eq. split; [intros ->; reflexivity | congruence].
  - split; discriminate.
  - split; discriminate.
  - split; reflexivity.
Qed.

Lemma includes_In (l : list Region) (r : Region) :
  FSMInteractor.includes l r = true <-> In r l.
Proof.
  unfold FSMInteractor.includes. rewrite existsb_exists. split.
  - intros [y [Hy E]]. apply Region_eqb_eq in E. subst y. exact Hy.
  - intro H. exists r. split; [exact H | apply Region_eqb_refl].
Qed.

Lemma includes_not_In (l : list Region) (r : Region) :
  FSMInteractor.includes l r = false <-> ~ In r l.
Proof.
  rewrite <- includes_In.
  destruct (FSMInteractor.includes l r); split; intro H;
    solve [ reflexivity | discriminate H
          | exfalso; apply H; reflexivity | intro H'; discriminate H' ].
Qed.

(* ================================================================== *)
(** ** The loops of the interactor as list functions *)
(* ================================================================== *)

(** A loop that pushes the elements passing a test is [filter]. *)
Lemma push_loop_filter {A : Type} (p : A -> bool) (l acc : list A) :
  fold_left (fun out r => if p r then out ++ [r] else out) l acc
  = acc ++ filter p l.
Proof.
  revert acc. induction l as [|a l IH]; intro acc; simpl.
  - symmetry. apply app_nil_r.
  - destruct (p a); rewrite IH.
    + rewrite <- app_assoc. reflexivity.
    + reflexivity.
Qed.

Lemma all_exit_filter (it : FSMInteractor.t) (v : list Region) :
  FSMInteractor.all_exit it v = exitsOf (FSMInteractor._visited it) v.
Proof.
  unfold FSMInteractor.all_exit, exitsOf.
  apply (push_loop_filter
           (fun r => negb (FSMInteractor.includes v r))).
Qed.

Lemma all_enter_filter (it : FSMInteractor.t) (v : list Region) :
  FSMInteractor.all_enter it v = entersOf (FSMInteractor._visited it) v.
Proof.
  unfold FSMInteractor.all_enter, entersOf.
  apply (push_loop_filter
           (fun r => negb (FSMInteractor.includes
                             (FSMInteractor._visited it) r))).
Qed.

Lemma all_move_inside_filter (it : FSMInteractor.t) (v : list Region) :
  FSMInteractor.all_move_inside it v
  = staysOf (FSMInteractor._visited it) v.
Proof.
  unfold FSMInteractor.all_move_inside, staysOf.
  apply (push_loop_filter
           (fun r => FSMInteractor.includes (FSMInteractor._visited it) r)).
Qed.

Lemma pick_filter {G : RegionGeometry} (it : FSMInteractor.t) (f : FSM)
    (x y : Z) :
  FSMInteractor._fsm it = Some f ->
  FSMInteractor.pick it x y
  = rev (filter (fun r => regionPick r x y) (regions f)).
Proof.
  intro H. unfold FSMInteractor.pick. rewrite H.
  rewrite (push_loop_filter (fun r => regionPick r x y)). reflexivity.
Qed.

Lemma forEachAct_acts (it : FSMInteractor.t) (f : FSM) (k : EvtType)
    (l : list Region) (tr : list Effect) :
  FSMInteractor._fsm it = Some f ->
  FSMInteractor.forEachAct it k l tr = tr ++ acts k l.
Proof.
  intro H. unfold FSMInteractor.forEachAct, FSMInteractor.actOnEvent.
  rewrite H. revert tr.
  induction l as [|a l IH]; intro tr; simpl.
  - symmetry. apply app_nil_r.
  - rewrite IH, <- app_assoc. reflexivity.
Qed.

Lemma exitsOf_In (visited picked : list Region) (r : Region) :
  In r (exitsOf visited picked) <-> In r visited /\ ~ In r picked.
Proof.
  unfold exitsOf. rewrite filter_In, negb_true_iff, includes_not_In.
  reflexivity.
Qed.

Lemma entersOf_In (visited picked : list Region) (r : Region) :
  In r (entersOf visited picked) <-> In r picked /\ ~ In r visited.
Proof.
  unfold entersOf. rewrite filter_In, negb_true_iff, includes_not_In.
  reflexivity.
Qed.

Lemma staysOf_In (visited picked : list Region) (r : Region) :
  In r (staysOf visited picked) <-> In r picked /\ In r visited.
Proof.
  unfold staysOf. rewrite filter_In, includes_In. reflexivity.
Qed.

(** The whole of a dispatch with an FSM attached, in closed form. *)
Lemma dispatch_closed_form {G : RegionGeometry} (it : FSMInteractor.t)
    (f : FSM) (what : RawKind) (x y : Z) :
  FSMInteractor._fsm it = Some f ->
  FSMInteractor.dispatchRawEvent it what x y
  = (FSMInteractor.with_visited it (FSMInteractor.pick it x y),
     acts exit (exitsOf (FSMInteractor._visited it)
                        (FSMInteractor.pick it x y))
     ++ acts enter (entersOf (FSMInteractor._visited it)
                             (FSMInteractor.pick it x y))
     ++ actionEvents what (FSMInteractor._visited it)
                     (FSMInteractor.pick it x y)).
Proof.
  intro H. unfold FSMInteractor.dispatchRawEvent. rewrite H.
  cbv zeta. f_equal.
  rewrite all_exit_filter, all_enter_filter, all_move_inside_filter.
  destruct what; unfold actionEvents.
  - rewrite !(forEachAct_acts it f _ _ _ H).
    rewrite app_nil_l, <- app_assoc. reflexivity.
  - rewrite !(forEachAct_acts it f _ _ _ H).
    rewrite app_nil_l, <- app_assoc. reflexivity.
  - destruct (FSMInteractor.pick it x y) as [|r rs]; cbn [List.length Nat.eqb].
    + rewrite !(forEachAct_acts it f _ _ _ H).
      unfold FSMInteractor.actOnEvent. rewrite H.
      rewrite app_nil_l, <- app_assoc. reflexivity.
    + rewrite !(forEachAct_acts it f _ _ _ H).
      rewrite app_nil_l, <- app_assoc. reflexivity.
Qed.

(* ================================================================== *)
(** ** Selecting events of one kind from a trace *)
(* ================================================================== *)

Lemma eventsOf_app (k : EvtType) (a b : list Effect) :
  eventsOf k (a ++ b) = eventsOf k a ++ eventsOf k b.
Proof. unfold eventsOf. apply filter_app. Qed.

Lemma eventsOf_acts_same (k : EvtType) (l : list Region) :
  eventsOf k (acts k l) = acts k l.
Proof.
  unfold eventsOf, acts. induction l as [|a l IH]; simpl.
  - reflexivity.
  - rewrite EvtType_eqb_refl, IH. reflexivity.
Qed.

Lemma eventsOf_acts_other (k k' : EvtType) (l : list Region) :
  k' <> k -> eventsOf k (acts k' l) = [].
Proof.
  intro H. apply EvtType_eqb_neq in H.
  unfold eventsOf, acts. induction l as [|a l IH]; simpl.
  - reflexivity.
  - rewrite H. exact IH.
Qed.

Lemma In_acts (k k' : EvtType) (regn : option Region) (l : list Region) :
  In (ActOnEvent k regn) (acts k' l)
  <-> k = k' /\ exists r, regn = Some r /\ In r l.
Proof.
  unfold acts. rewrite in_map_iff. split.
  - intros [r [E Hr]]. injection E as <- <-. split; [reflexivity|].
    exists r. split; [reflexivity | exact Hr].
  - intros [-> [r [-> Hr]]]. exists r. split; [reflexivity | exact Hr].
Qed.

Create Rewrite HintDb events.
#[local] Hint Rewrite eventsOf_app eventsOf_acts_same app_nil_l app_nil_r
  : events.

Ltac other_kind :=
  rewrite eventsOf_acts_other by discriminate.

(* ================================================================== *)
(** ** Properties of the raw-event translator *)
(* ================================================================== *)

(** C1.  With an FSM attached, the events handed to [actOnEvent] by one
    [dispatchRawEvent] are, in this order and with nothing else: an
    [exit] for each visited region that is not picked, in visited order;
    an [enter] for each picked region that is not visited, in pick
    order; the events proper to the raw kind. *)
Theorem dispatch_exit_enter_action_order {G : RegionGeometry}
    (it : FSMInteractor.t) (f : FSM) (what : RawKind) (x y : Z) :
  FSMInteractor._fsm it = Some f ->
  snd (FSMInteractor.dispatchRawEvent it what x y)
  = acts exit (exitsOf (FSMInteractor._visited it)
                       (FSMInteractor.pick it x y))
    ++ acts enter (entersOf (FSMInteractor._visited it)
                            (FSMInteractor.pick it x y))
    ++ actionEvents what (FSMInteractor._visited it)
                    (FSMInteractor.pick it x y)
  /\ (forall r, In r (exitsOf (FSMInteractor._visited it)
                              (FSMInteractor.pick it x y))
                <-> In r (FSMInteractor._visited it)
                    /\ ~ In r (FSMInteractor.pick it x y))
  /\ (forall r, In r (entersOf (FSMInteractor._visited it)
                               (FSMInteractor.pick it x y))
                <-> In r (FSMInteractor.pick it x y)
                    /\ ~ In r (FSMInteractor._visited it)).
Proof.
  intro H. rewrite (dispatch_closed_form it f what x y H). simpl snd.
  split; [reflexivity|]. split; intro r.
  - apply exitsOf_In.
  - apply entersOf_In.
Qed.

Lemma dispatch_exit_enter_action_order_witness :
  FSMInteractor._fsm pressedInteractor = Some sampleFSM
  /\ snd (FSMInteractor.dispatchRawEvent (G := sampleGeometry)
            pressedInteractor RawMove 12 12)
     = [ActOnEvent exit (Some regionA);
        ActOnEvent move_inside (Some regionB)].
Proof.
  split; [reflexivity|].
  exact (proj1 (dispatch_exit_enter_action_order (G := sampleGeometry)
                  pressedInteractor sampleFSM RawMove 12 12 eq_refl)).
Defined.

(** C2.  With an FSM attached, a raw release over an empty pick list
    delivers exactly one [release_none], with no region, and no
    [release]; over a non-empty pick list it delivers one [release] per
    picked region, in pick order, and no [release_none]. *)
Theorem release_none_or_release_per_region {G : RegionGeometry}
    (it : FSMInteractor.t) (f : FSM) (x y : Z) :
  FSMInteractor._fsm it = Some f ->
  (FSMInteractor.pick it x y = [] ->
     eventsOf release_none
       (snd (FSMInteractor.dispatchRawEvent it RawRelease x y))
     = [ActOnEvent release_none None]
     /\ eventsOf release
          (snd (FSMInteractor.dispatchRawEvent it RawRelease x y)) = [])
  /\ (FSMInteractor.pick it x y <> [] ->
        eventsOf release
          (snd (FSMInteractor.dispatchRawEvent it RawRelease x y))
        = acts release (FSMInteractor.pick it x y)
        /\ eventsOf release_none
             (snd (FSMInteractor.dispatchRawEvent it RawRelease x y)) = []).
Proof.
  intro H. rewrite (dispatch_closed_form it f RawRelease x y H). simpl snd.
  destruct (FSMInteractor.pick it x y) as [|r rs] eqn:E.
  - split; [intros _ | intro C; contradiction C; reflexivity].
    unfold actionEvents. autorewrite with events.
    repeat other_kind. split; reflexivity.
  - split; [intro C; discriminate C | intros _].
    unfold actionEvents. autorewrite with events.
    repeat other_kind. autorewrite with events. split; reflexivity.
Qed.

Lemma release_none_or_release_per_region_witness :
  FSMInteractor._fsm pressedInteractor = Some sampleFSM
  /\ eventsOf release_none
       (snd (FSMInteractor.dispatchRawEvent (G := sampleGeometry)
               pressedInteractor RawRelease 50 50))
     = [ActOnEvent release_none None]
  /\ eventsOf release
       (snd (FSMInteractor.dispatchRawEvent (G := sampleGeometry)
               pressedInteractor RawRelease 12 12))
     = [ActOnEvent release (Some regionB)].
Proof.
  split; [reflexivity|]. split.
  - exact (proj1 (proj1 (release_none_or_release_per_region
                           (G := sampleGeometry)
                           pressedInteractor sampleFSM 50 50 eq_refl)
                        eq_refl)).
  - refine (proj1 (proj2 (release_none_or_release_per_region
                            (G := sampleGeometry)
                            pressedInteractor sampleFSM 12 12 eq_refl) _)).
    vm_compute. discriminate.
Defined.

(** C5.  With an FSM attached, a raw move delivers [move_inside] exactly
    for the regions both visited and picked, in pick order; a region
    just entered or just exited gets none. *)
Theorem move_inside_for_intersection {G : RegionGeometry}
    (it : FSMInteractor.t) (f : FSM) (x y : Z) :
  FSMInteractor._fsm it = Some f ->
  eventsOf move_inside
    (snd (FSMInteractor.dispatchRawEvent it RawMove x y))
  = acts move_inside (staysOf (FSMInteractor._visited it)
                              (FSMInteractor.pick it x y))
  /\ (forall r, In r (staysOf (FSMInteractor._visited it)
                              (FSMInteractor.pick it x y))
                <-> In r (FSMInteractor.pick it x y)
                    /\ In r (FSMInteractor._visited it))
  /\ (forall r,
        In r (entersOf (FSMInteractor._visited it)
                       (FSMInteractor.pick it x y))
        \/ In r (exitsOf (FSMInteractor._visited it)
                         (FSMInteractor.pick it x y)) ->
        ~ In (ActOnEvent move_inside (Some r))
             (snd (FSMInteractor.dispatchRawEvent it RawMove x y))).
Proof.
  intro H. rewrite (dispatch_closed_form it f RawMove x y H). simpl snd.
  unfold actionEvents.
  split; [|split].
  - autorewrite with events. repeat other_kind. reflexivity.
  - intro r. apply staysOf_In.
  - intros r Hr Hin.
    rewrite !in_app_iff, !In_acts in Hin.
    destruct Hin as [[C _] | [[C _] | [_ [r' [E Hs]]]]];
      try discriminate C.
    injection E as <-. apply staysOf_In in Hs. destruct Hs as [Hp Hv].
    destruct Hr as [Hr | Hr].
    + apply entersOf_In in Hr. destruct Hr as [_ Hn]. exact (Hn Hv).
    + apply exitsOf_In in Hr. destruct Hr as [_ Hn]. exact (Hn Hp).
Qed.

Lemma move_inside_for_intersection_witness :
  FSMInteractor._fsm pressedInteractor = Some sampleFSM
  /\ eventsOf move_inside
       (snd (FSMInteractor.dispatchRawEvent (G := sampleGeometry)
               pressedInteractor RawMove 2 2))
     = [ActOnEvent move_inside (Some regionA)].
Proof.
  split; [reflexivity|].
  exact (proj1 (move_inside_for_intersection (G := sampleGeometry)
                  pressedInteractor sampleFSM 2 2 eq_refl)).
Defined.

(** C7, as stated, fails: once the FSM is gone (a failed load after a
    press over both sample regions), a dispatch keeps the old visited
    set, which is not the pick list of that call. *)
Lemma visited_kept_when_fsm_missing :
  FSMInteractor._visited
    (fst (FSMInteractor.dispatchRawEvent (G := sampleGeometry)
            orphanInteractor RawMove 5 5))
  = [regionB; regionA]
  /\ FSMInteractor.pick (G := sampleGeometry) orphanInteractor 5 5 = []
  /\ FSMInteractor._visited
       (fst (FSMInteractor.dispatchRawEvent (G := sampleGeometry)
               orphanInteractor RawMove 5 5))
     <> FSMInteractor.pick (G := sampleGeometry) orphanInteractor 5 5.
Proof.
  split; [reflexivity|]. split; [reflexivity|].
  vm_compute. discriminate.
Qed.

(** C7, amended.  The visited set is empty at construction; a
    [dispatchRawEvent] with an FSM attached changes the interactor only
    by replacing the visited set with the pick list of that call; with
    no FSM attached it leaves it as it was; the setters of [x], [y],
    [position] and [parent] and both outcomes of a load leave it as it
    was. *)
Theorem visited_replaced_by_pick_when_fsm_attached {G : RegionGeometry}
    (fsm0 : option FSM) (x0 y0 : Z) (p0 : option Root)
    (it : FSMInteractor.t) (what : RawKind) (x y v : Z) (pos : Z * Z)
    (p : option Root) (f : FSM) (jsonLoc : string) :
  FSMInteractor._visited (FSMInteractor.new fsm0 x0 y0 p0) = []
  /\ match FSMInteractor._fsm it with
     | Some _ =>
         fst (FSMInteractor.dispatchRawEvent it what x y)
         = FSMInteractor.with_visited it (FSMInteractor.pick it x y)
         /\ FSMInteractor._visited
              (fst (FSMInteractor.dispatchRawEvent it what x y))
            = FSMInteractor.pick it x y
     | None =>
         FSMInteractor._visited
           (fst (FSMInteractor.dispatchRawEvent it what x y))
         = FSMInteractor._visited it
     end
  /\ FSMInteractor._visited (fst (FSMInteractor.set_x it v))
     = FSMInteractor._visited it
  /\ FSMInteractor._visited (fst (FSMInteractor.set_y it v))
     = FSMInteractor._visited it
  /\ FSMInteractor._visited (fst (FSMInteractor.set_position it pos))
     = FSMInteractor._visited it
  /\ FSMInteractor._visited (fst (FSMInteractor.set_parent it p))
     = FSMInteractor._visited it
  /\ FSMInteractor._visited (fst (FSMInteractor.loadFailed it jsonLoc))
     = FSMInteractor._visited it
  /\ FSMInteractor._visited (fst (FSMInteractor.loadDone it f))
     = FSMInteractor._visited it.
Proof.
  split; [reflexivity|]. split.
  { destruct (FSMInteractor._fsm it) as [g|] eqn:E.
    - rewrite (dispatch_closed_form it g what x y E). split; reflexivity.
    - unfold FSMInteractor.dispatchRawEvent. rewrite E. reflexivity. }
  unfold FSMInteractor.set_x, FSMInteractor.set_y,
    FSMInteractor.set_position, FSMInteractor.set_parent.
  repeat split;
    match goal with
    | |- context [if ?c then _ else _] => destruct c; reflexivity
    | _ => reflexivity
    end.
Qed.

(** C8.  With no FSM attached, [dispatchRawEvent] delivers nothing and
    returns the interactor as it was, and [pick] returns no region. *)
Theorem dispatch_and_pick_without_fsm {G : RegionGeometry}
    (it : FSMInteractor.t) (what : RawKind) (x y : Z) :
  FSMInteractor._fsm it = None ->
  FSMInteractor.dispatchRawEvent it what x y = (it, [])
  /\ FSMInteractor.pick it x y = [].
Proof.
  intro H. unfold FSMInteractor.dispatchRawEvent, FSMInteractor.pick.
  rewrite H. split; reflexivity.
Qed.

Lemma dispatch_and_pick_without_fsm_witness :
  FSMInteractor._fsm orphanInteractor = None
  /\ FSMInteractor.dispatchRawEvent (G := sampleGeometry)
       orphanInteractor RawPress 5 5 = (orphanInteractor, [])
  /\ FSMInteractor.pick (G := sampleGeometry) orphanInteractor 5 5 = [].
Proof.
  split; [reflexivity|].
  exact (dispatch_and_pick_without_fsm (G := sampleGeometry)
           orphanInteractor RawPress 5 5 eq_refl).
Defined.

(* ================================================================== *)
(** ** Position setters and damage *)
(* ================================================================== *)

(** X8.  With a parent Root, the [x] setter stores a value that differs
    from the current one and declares damage to the parent once; given
    the current value it does nothing. *)
Lemma set_x_damage (it : FSMInteractor.t) (p : Root) (v : Z) :
  FSMInteractor._parent it = Some p ->
  (FSMInteractor._x it <> v ->
     snd (FSMInteractor.set_x it v) = [RootDamage p]
     /\ FSMInteractor._x (fst (FSMInteractor.set_x it v)) = v)
  /\ (FSMInteractor._x it = v -> FSMInteractor.set_x it v = (it, [])).
Proof.
  intro Hp. unfold FSMInteractor.set_x, FSMInteractor.damage. split.
  - intro Hne. apply Z.eqb_neq in Hne. rewrite Hne. simpl.
    rewrite Hp. split; reflexivity.
  - intro He. apply Z.eqb_eq in He. rewrite He. reflexivity.
Qed.

(** X9.  With a parent Root, the [y] setter stores a value that differs
    from the current one and declares damage to the parent once; given
    the current value it does nothing. *)
Lemma set_y_damage (it : FSMInteractor.t) (p : Root) (v : Z) :
  FSMInteractor._parent it = Some p ->
  (FSMInteractor._y it <> v ->
     snd (FSMInteractor.set_y it v) = [RootDamage p]
     /\ FSMInteractor._y (fst (FSMInteractor.set_y it v)) = v)
  /\ (FSMInteractor._y it = v -> FSMInteractor.set_y it v = (it, [])).
Proof.
  intro Hp. unfold FSMInteractor.set_y, FSMInteractor.damage. split.
  - intro Hne. apply Z.eqb_neq in Hne. rewrite Hne. simpl.
    rewrite Hp. split; reflexivity.
  - intro He. apply Z.eqb_eq in He. rewrite He. reflexivity.
Qed.

(** The [position] setter never calls [damage]. *)
Lemma set_position_silent (it : FSMInteractor.t) (v : Z * Z) :
  snd (FSMInteractor.set_position it v) = [].
Proof.
  unfold FSMInteractor.set_position.
  destruct (negb (fst v =? FSMInteractor._x it)
            || negb (snd v =? FSMInteractor._y it)); reflexivity.
Qed.

(** C9 at its failing input.  The sample interactor sits at (0,0) under
    a parent Root.  Setting [position] to (3,4) moves it and notifies
    nobody, where setting [x] to 3 notifies the parent. *)
Theorem position_setter_moves_without_damage :
  FSMInteractor._parent sampleInteractor = Some sampleRoot
  /\ FSMInteractor.position sampleInteractor = (0, 0)
  /\ FSMInteractor.position
       (fst (FSMInteractor.set_position sampleInteractor (3, 4))) = (3, 4)
  /\ damagesOf (snd (FSMInteractor.set_position sampleInteractor (3, 4)))
     = []
  /\ damagesOf (snd (FSMInteractor.set_x sampleInteractor 3))
     = [RootDamage sampleRoot].
Proof. repeat split. Qed.

(* ================================================================== *)
(** ** Properties of the event specification *)
(* ================================================================== *)

Lemma nameAbsent_In (name : string) (l : list Region) :
  EventSpec.nameAbsent name l = true
  <-> forall r, In r l -> rname r <> name.
Proof.
  unfold EventSpec.nameAbsent. rewrite negb_true_iff. split.
  - intros H r Hr E.
    assert (X : existsb (fun r => (rname r =? name)%string) l = true).
    { apply existsb_exists. exists r. split; [exact Hr|].
      apply String.eqb_eq. exact E. }
    rewrite X in H. discriminate H.
  - intro H. destruct (existsb _ l) eqn:X; [|reflexivity].
    apply existsb_exists in X. destruct X as [r [Hr E]].
    apply String.eqb_eq in E. exfalso. exact (H r Hr E).
Qed.

Lemma scanRegions_absent (name : string) (l : list Region) :
  EventSpec.nameAbsent name l = true -> EventSpec.scanRegions l name = None.
Proof.
  unfold EventSpec.nameAbsent. rewrite negb_true_iff.
  induction l as [|a l IH]; simpl.
  - reflexivity.
  - rewrite orb_false_iff. intros [Ha Hl]. rewrite Ha. exact (IH Hl).
Qed.

Lemma scanRegions_found (name : string) (l : list Region) (r : Region) :
  EventSpec.scanRegions l name = Some r -> In r l /\ rname r = name.
Proof.
  induction l as [|a l IH]; simpl.
  - discriminate.
  - destruct (rname a =? name)%string eqn:E.
    + intro H. injection H as <-. apply String.eqb_eq in E.
      split; [left; reflexivity | exact E].
    + intro H. destruct (IH H) as [Hin Hn]. split; [right|]; assumption.
Qed.

(** [bindRegion] never touches the kind or the region name. *)
Lemma bindRegion_keeps_kind_name (es : EventSpec.t) (l : list Region) :
  EventSpec.evtType (fst (EventSpec.bindRegion es l)) = EventSpec.evtType es
  /\ EventSpec.regionName (fst (EventSpec.bindRegion es l))
     = EventSpec.regionName es.
Proof.
  unfold EventSpec.bindRegion.
  destruct (EventSpec.regionName es =? "*")%string; [split; reflexivity|].
  destruct (EventSpec.scanRegions l (EventSpec.regionName es));
    [split; reflexivity|].
  destruct (EvtType_eqb (EventSpec.evtType es) nevermatch);
    [split; reflexivity|].
  destruct ((EvtType_eqb (EventSpec.evtType es) release_none
             || EvtType_eqb (EventSpec.evtType es) any)
            && (EventSpec.regionName es =? "")%string);
    split; reflexivity.
Qed.

(** A specification named ["*"] is unbound after [bindRegion] and then
    matches whatever it is given. *)
Lemma wildcard_matches_everything (es : EventSpec.t) (l : list Region)
    (k : EvtType) (regn : option Region) :
  EventSpec.regionName es = "*" ->
  EventSpec.bindRegion es l = (EventSpec.set_region es None, [])
  /\ EventSpec.match_ (fst (EventSpec.bindRegion es l)) k regn = true.
Proof.
  intro H. unfold EventSpec.bindRegion. rewrite H. simpl.
  split; [reflexivity|].
  unfold EventSpec.match_. simpl. rewrite H. reflexivity.
Qed.

(** A [nevermatch] specification not named ["*"] rejects every event of
    another kind, whatever its [region] field holds. *)
Lemma nevermatch_rejects (es : EventSpec.t) (k : EvtType)
    (regn : option Region) :
  EventSpec.evtType es = nevermatch ->
  EventSpec.regionName es <> "*" ->
  k <> nevermatch ->
  EventSpec.match_ es k regn = false.
Proof.
  intros Hk Hn Hne. unfold EventSpec.match_.
  apply String.eqb_neq in Hn. rewrite Hn, Hk. simpl.
  apply EvtType_eqb_neq in Hne. rewrite Hne. reflexivity.
Qed.

(** [fromJson] turns a string outside [evtTypeStrings], or a value that
    is no string, into the kind [nevermatch]. *)
Lemma fromJson_unrecognized (v : EventSpec.JsVal) (name : string) :
  match v with
  | EventSpec.JsString s => existsb (String.eqb s) evtTypeStrings = false
  | EventSpec.JsOther => True
  end ->
  EventSpec.fromJson v (EventSpec.JsString name)
  = Some (EventSpec.new nevermatch name).
Proof.
  unfold EventSpec.fromJson, EventSpec.limitedString.
  destruct v as [s|]; intro H; [rewrite H|]; reflexivity.
Qed.

(** C3 at its failing input.  A [press] specification named ["*"],
    bound against the sample regions, stays unbound and then matches a
    [release_none] without region and an [exit] of region [A]. *)
Theorem wildcard_press_matches_other_kinds :
  EventSpec.bindRegion (EventSpec.new press "*") [regionA; regionB]
  = (EventSpec.new press "*", [])
  /\ EventSpec.match_
       (fst (EventSpec.bindRegion (EventSpec.new press "*")
               [regionA; regionB]))
       release_none None = true
  /\ EventSpec.match_
       (fst (EventSpec.bindRegion (EventSpec.new press "*")
               [regionA; regionB]))
       exit (Some regionA) = true.
Proof. repeat split. Qed.

(** C4, as stated, fails: a [nevermatch] specification matches an event
    of kind [nevermatch], with the region it was bound to or, unbound,
    with no region; named ["*"] it matches a [press] of region [A]. *)
Lemma nevermatch_spec_can_match :
  EventSpec.match_
    (fst (EventSpec.bindRegion (EventSpec.new nevermatch "A")
            [regionA; regionB]))
    nevermatch (Some regionA) = true
  /\ EventSpec.match_
       (fst (EventSpec.bindRegion (EventSpec.new nevermatch "nowhere")
               [regionA; regionB]))
       nevermatch None = true
  /\ EventSpec.match_
       (fst (EventSpec.bindRegion (EventSpec.new nevermatch "*")
               [regionA; regionB]))
       press (Some regionA) = true.
Proof. repeat split. Qed.

(** C4, amended.  A [nevermatch] specification whose region name is not
    ["*"] rejects every event whose kind is not [nevermatch] itself,
    for every region argument, before and after [bindRegion], bound or
    not. *)
Theorem nevermatch_rejects_other_kinds (es : EventSpec.t)
    (l : list Region) (k : EvtType) (regn : option Region) :
  EventSpec.evtType es = nevermatch ->
  EventSpec.regionName es <> "*" ->
  k <> nevermatch ->
  EventSpec.match_ es k regn = false
  /\ EventSpec.match_ (fst (EventSpec.bindRegion es l)) k regn = false.
Proof.
  intros Hk Hn Hne. split.
  - apply nevermatch_rejects; assumption.
  - destruct (bindRegion_keeps_kind_name es l) as [Ek En].
    apply nevermatch_rejects; [rewrite Ek | rewrite En |]; assumption.
Qed.

Lemma nevermatch_rejects_other_kinds_witness :
  EventSpec.match_ (EventSpec.new nevermatch "A") press (Some regionA)
  = false
  /\ EventSpec.match_
       (fst (EventSpec.bindRegion (EventSpec.new nevermatch "A")
               [regionA; regionB]))
       press (Some regionA) = false.
Proof.
  apply (nevermatch_rejects_other_kinds (EventSpec.new nevermatch "A")
           [regionA; regionB] press (Some regionA)).
  - reflexivity.
  - simpl. discriminate.
  - discriminate.
Defined.

(** C6.  When no region of the list carries the specification's name
    and the name is not ["*"]: binding a fresh [press] specification
    reports the configuration error, once, and binding a fresh
    [nevermatch] specification reports nothing and leaves it unbound. *)
Theorem bindRegion_absent_press_reports_nevermatch_silent
    (name : string) (l : list Region) :
  name <> "*" ->
  EventSpec.nameAbsent name l = true ->
  EventSpec.bindRegion (EventSpec.new press name) l
  = (EventSpec.new press name, [ErrEmit (EventSpec.bindErrorMessage name)])
  /\ snd (EventSpec.bindRegion (EventSpec.new nevermatch name) l) = []
  /\ EventSpec.region
       (fst (EventSpec.bindRegion (EventSpec.new nevermatch name) l))
     = None.
Proof.
  intros Hn Ha. apply String.eqb_neq in Hn.
  unfold EventSpec.bindRegion. simpl.
  rewrite Hn, (scanRegions_absent name l Ha).
  repeat split.
Qed.

Lemma bindRegion_absent_press_reports_nevermatch_silent_witness :
  EventSpec.bindRegion (EventSpec.new press "C") [regionA; regionB]
  = (EventSpec.new press "C",
     [ErrEmit "Region 'C' in event specification does not match any region."])
  /\ snd (EventSpec.bindRegion (EventSpec.new nevermatch "C")
            [regionA; regionB]) = []
  /\ EventSpec.region
       (fst (EventSpec.bindRegion (EventSpec.new nevermatch "C")
               [regionA; regionB])) = None.
Proof.
  apply (bindRegion_absent_press_reports_nevermatch_silent
           "C" [regionA; regionB]).
  - discriminate.
  - reflexivity.
Defined.

(** C10.  A specification not yet bound, whose name is not ["*"] and is
    carried by no region of the list, and which is not of an exempt
    form: [bindRegion] reports the configuration error, the region
    field stays undefined, and the specification still matches an event
    of its own kind that has no region. *)
Theorem unbound_after_error_still_matches_regionless
    (es : EventSpec.t) (l : list Region) :
  EventSpec.region es = None ->
  EventSpec.regionName es <> "*" ->
  EventSpec.nameAbsent (EventSpec.regionName es) l = true ->
  EventSpec.exempt es = false ->
  snd (EventSpec.bindRegion es l)
  = [ErrEmit (EventSpec.bindErrorMessage (EventSpec.regionName es))]
  /\ EventSpec.region (fst (EventSpec.bindRegion es l)) = None
  /\ forall k, k = EventSpec.evtType es ->
       EventSpec.match_ (fst (EventSpec.bindRegion es l)) k None = true.
Proof.
  intros Hr Hn Ha Hx.
  assert (B : EventSpec.bindRegion es l
              = (es, [ErrEmit (EventSpec.bindErrorMessage
                                 (EventSpec.regionName es))])).
  { unfold EventSpec.bindRegion.
    apply String.eqb_neq in Hn. rewrite Hn.
    rewrite (scanRegions_absent _ l Ha).
    unfold EventSpec.exempt in Hx. apply orb_false_iff in Hx.
    destruct Hx as [Hx1 Hx2]. rewrite Hx1, Hx2. reflexivity. }
  rewrite B. simpl. split; [reflexivity|]. split; [exact Hr|].
  intros k ->. unfold EventSpec.match_.
  apply String.eqb_neq in Hn. rewrite Hn, Hr. simpl.
  rewrite EvtType_eqb_refl.
  destruct (EvtType_eqb (EventSpec.evtType es) release_none); reflexivity.
Qed.

Lemma unbound_after_error_still_matches_regionless_witness :
  snd (EventSpec.bindRegion (EventSpec.new release "C") [regionA; regionB])
  = [ErrEmit "Region 'C' in event specification does not match any region."]
  /\ EventSpec.region
       (fst (EventSpec.bindRegion (EventSpec.new release "C")
               [regionA; regionB])) = None
  /\ forall k, k = release ->
       EventSpec.match_
         (fst (EventSpec.bindRegion (EventSpec.new release "C")
                 [regionA; regionB])) k None = true.
Proof.
  apply (unbound_after_error_still_matches_regionless
           (EventSpec.new release "C") [regionA; regionB]).
  - reflexivity.
  - simpl. discriminate.
  - reflexivity.
  - reflexivity.
Defined.

(* ================================================================== *)
(** ** Further properties of the interactor *)
(* ================================================================== *)

Lemma Root_eqb_eq (a b : Root) : Root_eqb a b = true <-> a = b.
Proof.
  unfold Root_eqb. destruct a as [i], b as [j]; simpl.
  rewrite Nat.eqb_eq. split; [intros ->; reflexivity | congruence].
Qed.

Lemma pick_ignores_visited {G : RegionGeometry} (it : FSMInteractor.t)
    (l : list Region) (x y : Z) :
  FSMInteractor.pick (FSMInteractor.with_visited it l) x y
  = FSMInteractor.pick it x y.
Proof. reflexivity. Qed.

Lemma exitsOf_self (l : list Region) : exitsOf l l = [].
Proof.
  unfold exitsOf.
  assert (H : forall m, (forall r, In r m -> In r l) ->
                        filter (fun r => negb (FSMInteractor.includes l r)) m
                        = []).
  { induction m as [|a m IH]; intro Hm; simpl; [reflexivity|].
    rewrite (proj2 (includes_In l a) (Hm a (or_introl eq_refl))). simpl.
    apply IH. intros r Hr. apply Hm. right. exact Hr. }
  apply H. intros r Hr. exact Hr.
Qed.

Lemma staysOf_self (l : list Region) : staysOf l l = l.
Proof.
  unfold staysOf.
  assert (H : forall m, (forall r, In r m -> In r l) ->
                        filter (fun r => FSMInteractor.includes l r) m = m).
  { induction m as [|a m IH]; intro Hm; simpl; [reflexivity|].
    rewrite (proj2 (includes_In l a) (Hm a (or_introl eq_refl))).
    f_equal. apply IH. intros r Hr. apply Hm. right. exact Hr. }
  apply H. intros r Hr. exact Hr.
Qed.

(** X1.  With an FSM attached, [pick] returns exactly the regions of the
    FSM that the point hits, the region drawn last first; regions that
    are pairwise distinct give a pick list without repetition. *)
Theorem pick_lists_hit_regions_topmost_first {G : RegionGeometry}
    (it : FSMInteractor.t) (f : FSM) (x y : Z) :
  FSMInteractor._fsm it = Some f ->
  FSMInteractor.pick it x y
  = rev (filter (fun r => regionPick r x y) (regions f))
  /\ (forall r, In r (FSMInteractor.pick it x y)
                <-> In r (regions f) /\ regionPick r x y = true)
  /\ (NoDup (regions f) -> NoDup (FSMInteractor.pick it x y)).
Proof.
  intro H. rewrite (pick_filter it f x y H).
  split; [reflexivity|]. split.
  - intro r. rewrite <- in_rev, filter_In. reflexivity.
  - intro N. apply NoDup_rev, NoDup_filter, N.
Qed.

Lemma pick_lists_hit_regions_topmost_first_witness :
  FSMInteractor.pick (G := sampleGeometry) sampleInteractor 5 5
  = [regionB; regionA]
  /\ FSMInteractor.pick (G := sampleGeometry) sampleInteractor 12 12
     = [regionB].
Proof.
  split.
  - exact (proj1 (pick_lists_hit_regions_topmost_first
                    (G := sampleGeometry) sampleInteractor sampleFSM
                    5 5 eq_refl)).
  - exact (proj1 (pick_lists_hit_regions_topmost_first
                    (G := sampleGeometry) sampleInteractor sampleFSM
                    12 12 eq_refl)).
Defined.

(** X2.  What [all_exit] returns lies in the visited set and outside
    the given list, what [all_enter] returns lies in the given list and
    outside the visited set, and no region is in both results. *)
Theorem exits_and_enters_are_disjoint (it : FSMInteractor.t)
    (v : list Region) :
  (forall r, In r (FSMInteractor.all_exit it v)
             <-> In r (FSMInteractor._visited it) /\ ~ In r v)
  /\ (forall r, In r (FSMInteractor.all_enter it v)
                <-> In r v /\ ~ In r (FSMInteractor._visited it))
  /\ (forall r, ~ (In r (FSMInteractor.all_exit it v)
                   /\ In r (FSMInteractor.all_enter it v))).
Proof.
  rewrite all_exit_filter, all_enter_filter. split; [|split].
  - intro r. apply exitsOf_In.
  - intro r. apply entersOf_In.
  - intros r [He Hn]. apply exitsOf_In in He. apply entersOf_In in Hn.
    destruct He as [_ He]. destruct Hn as [Hn _]. exact (He Hn).
Qed.

(** X3.  A second sample at the point of the one just dispatched
    delivers no [exit] and no [enter]: only the events of its raw kind,
    a [move_inside] for every picked region when it is a move. *)
Theorem second_sample_at_same_point_only_acts {G : RegionGeometry}
    (it : FSMInteractor.t) (f : FSM) (what what' : RawKind) (x y : Z) :
  FSMInteractor._fsm it = Some f ->
  snd (FSMInteractor.dispatchRawEvent
         (fst (FSMInteractor.dispatchRawEvent it what x y)) what' x y)
  = match what' with
    | RawPress => acts press (FSMInteractor.pick it x y)
    | RawMove => acts move_inside (FSMInteractor.pick it x y)
    | RawRelease =>
        match FSMInteractor.pick it x y with
        | [] => [ActOnEvent release_none None]
        | _ :: _ => acts release (FSMInteractor.pick it x y)
        end
    end.
Proof.
  intro H. rewrite (dispatch_closed_form it f what x y H). simpl fst.
  rewrite (dispatch_closed_form
             (FSMInteractor.with_visited it (FSMInteractor.pick it x y))
             f what' x y H).
  simpl snd. rewrite pick_ignores_visited. simpl FSMInteractor._visited.
  unfold entersOf. fold (exitsOf (FSMInteractor.pick it x y)
                                 (FSMInteractor.pick it x y)).
  rewrite exitsOf_self. simpl app.
  destruct what'; unfold actionEvents; [| rewrite staysOf_self |];
    reflexivity.
Qed.

Lemma second_sample_at_same_point_only_acts_witness :
  snd (FSMInteractor.dispatchRawEvent (G := sampleGeometry)
         (fst (FSMInteractor.dispatchRawEvent (G := sampleGeometry)
                 sampleInteractor RawPress 5 5)) RawMove 5 5)
  = [ActOnEvent move_inside (Some regionB);
     ActOnEvent move_inside (Some regionA)].
Proof.
  exact (second_sample_at_same_point_only_acts (G := sampleGeometry)
           sampleInteractor sampleFSM RawPress RawMove 5 5 eq_refl).
Defined.

(** X4.  With an FSM attached, a raw press delivers a [press] to every
    picked region, in pick order, and no [release], [release_none] or
    [move_inside]. *)
Theorem press_reaches_every_picked_region {G : RegionGeometry}
    (it : FSMInteractor.t) (f : FSM) (x y : Z) :
  FSMInteractor._fsm it = Some f ->
  eventsOf press (snd (FSMInteractor.dispatchRawEvent it RawPress x y))
  = acts press (FSMInteractor.pick it x y)
  /\ eventsOf release
       (snd (FSMInteractor.dispatchRawEvent it RawPress x y)) = []
  /\ eventsOf release_none
       (snd (FSMInteractor.dispatchRawEvent it RawPress x y)) = []
  /\ eventsOf move_inside
       (snd (FSMInteractor.dispatchRawEvent it RawPress x y)) = [].
Proof.
  intro H. rewrite (dispatch_closed_form it f RawPress x y H). simpl snd.
  unfold actionEvents.
  repeat split; autorewrite with events; repeat other_kind;
    autorewrite with events; reflexivity.
Qed.

Lemma press_reaches_every_picked_region_witness :
  eventsOf press
    (snd (FSMInteractor.dispatchRawEvent (G := sampleGeometry)
            sampleInteractor RawPress 5 5))
  = [ActOnEvent press (Some regionB); ActOnEvent press (Some regionA)].
Proof.
  exact (proj1 (press_reaches_every_picked_region (G := sampleGeometry)
                  sampleInteractor sampleFSM 5 5 eq_refl)).
Defined.

Lemma Forall_deliverable_acts (k : EvtType) (l : list Region) :
  k <> release_none -> k <> any -> k <> nevermatch ->
  Forall (fun e => deliverable e = true) (acts k l).
Proof.
  intros H1 H2 H3. unfold acts. apply Forall_forall. intros e He.
  apply in_map_iff in He. destruct He as [r [<- _]].
  destruct k; try reflexivity; contradiction.
Qed.

Lemma dispatch_deliverable {G : RegionGeometry} (it : FSMInteractor.t)
    (what : RawKind) (x y : Z) :
  Forall (fun e => deliverable e = true)
         (snd (FSMInteractor.dispatchRawEvent it what x y)).
Proof.
  destruct (FSMInteractor._fsm it) as [f|] eqn:E.
  - rewrite (dispatch_closed_form it f what x y E). simpl snd.
    apply Forall_app. split;
      [apply Forall_deliverable_acts; discriminate|].
    apply Forall_app. split;
      [apply Forall_deliverable_acts; discriminate|].
    destruct what; unfold actionEvents;
      try (apply Forall_deliverable_acts; discriminate).
    destruct (FSMInteractor.pick it x y).
    + constructor; [reflexivity | constructor].
    + apply Forall_deliverable_acts; discriminate.
  - unfold FSMInteractor.dispatchRawEvent. rewrite E. constructor.
Qed.

(** X5.  Whatever the state and the sample, [dispatchRawEvent] makes no
    call but [actOnEvent]; the kinds it delivers are [exit], [enter],
    [press], [move_inside] and [release], each with a region, and
    [release_none], without one; never [any] or [nevermatch]; and every
    region it names was visited before or is picked now. *)
Theorem dispatch_delivers_only_region_events {G : RegionGeometry}
    (it : FSMInteractor.t) (what : RawKind) (x y : Z) :
  Forall (fun e => deliverable e = true)
         (snd (FSMInteractor.dispatchRawEvent it what x y))
  /\ (forall k r,
        In (ActOnEvent k (Some r))
           (snd (FSMInteractor.dispatchRawEvent it what x y)) ->
        In r (FSMInteractor._visited it)
        \/ In r (FSMInteractor.pick it x y)).
Proof.
  split; [apply dispatch_deliverable|].
  intros k r. destruct (FSMInteractor._fsm it) as [f|] eqn:E.
  - rewrite (dispatch_closed_form it f what x y E). simpl snd.
    rewrite !in_app_iff, !In_acts.
    intros [[_ [r' [Er Hr]]] | [[_ [r' [Er Hr]]] | Ha]].
    + injection Er as <-. apply exitsOf_In in Hr. left. apply Hr.
    + injection Er as <-. apply entersOf_In in Hr. right. apply Hr.
    + right. destruct what; unfold actionEvents in Ha.
      * apply In_acts in Ha. destruct Ha as [_ [r' [Er Hr]]].
        injection Er as <-. exact Hr.
      * apply In_acts in Ha. destruct Ha as [_ [r' [Er Hr]]].
        injection Er as <-. apply staysOf_In in Hr. apply Hr.
      * destruct (FSMInteractor.pick it x y) as [|p ps] eqn:Ep.
        -- destruct Ha as [Ha | []]. discriminate Ha.
        -- apply In_acts in Ha. destruct Ha as [_ [r' [Er Hr]]].
           injection Er as <-. exact Hr.
  - unfold FSMInteractor.dispatchRawEvent. rewrite E. intros [].
Qed.

(** X6.  An event specification of kind [nevermatch] or [any] whose
    region name is not ["*"] matches none of the events that
    [dispatchRawEvent] delivers, bound or not. *)
Theorem nevermatch_and_any_ignore_delivered_events {G : RegionGeometry}
    (it : FSMInteractor.t) (what : RawKind) (x y : Z)
    (es : EventSpec.t) (k : EvtType) (regn : option Region) :
  EventSpec.evtType es = nevermatch \/ EventSpec.evtType es = any ->
  EventSpec.regionName es <> "*" ->
  In (ActOnEvent k regn)
     (snd (FSMInteractor.dispatchRawEvent it what x y)) ->
  EventSpec.match_ es k regn = false.
Proof.
  intros Hk Hn Hin.
  pose proof (dispatch_deliverable it what x y) as D.
  rewrite Forall_forall in D. specialize (D _ Hin).
  unfold EventSpec.match_. apply String.eqb_neq in Hn. rewrite Hn.
  simpl andb. cbv iota.
  destruct Hk as [-> | ->]; simpl;
    destruct k; try reflexivity; destruct regn; discriminate D.
Qed.

Lemma nevermatch_and_any_ignore_delivered_events_witness :
  EventSpec.match_
    (fst (EventSpec.bindRegion (EventSpec.new any "A") [regionA; regionB]))
    press (Some regionA) = false.
Proof.
  apply (nevermatch_and_any_ignore_delivered_events (G := sampleGeometry)
           sampleInteractor RawPress 5 5).
  - right. reflexivity.
  - simpl. discriminate.
  - vm_compute. right. right. right. left. reflexivity.
Defined.

(** X7.  With an FSM attached, a raw move gives every picked region
    either an [enter] (it was not visited) or a [move_inside] (it was),
    never both, and delivers as many events as there are exited and
    picked regions together. *)
Theorem move_gives_enter_or_move_inside {G : RegionGeometry}
    (it : FSMInteractor.t) (f : FSM) (x y : Z) :
  FSMInteractor._fsm it = Some f ->
  (forall r, In r (FSMInteractor.pick it x y) ->
     (~ In r (FSMInteractor._visited it)
      /\ In (ActOnEvent enter (Some r))
            (snd (FSMInteractor.dispatchRawEvent it RawMove x y))
      /\ ~ In (ActOnEvent move_inside (Some r))
              (snd (FSMInteractor.dispatchRawEvent it RawMove x y)))
     \/ (In r (FSMInteractor._visited it)
         /\ In (ActOnEvent move_inside (Some r))
               (snd (FSMInteractor.dispatchRawEvent it RawMove x y))
         /\ ~ In (ActOnEvent enter (Some r))
                 (snd (FSMInteractor.dispatchRawEvent it RawMove x y))))
  /\ List.length (snd (FSMInteractor.dispatchRawEvent it RawMove x y))
     = (List.length (FSMInteractor.all_exit it (FSMInteractor.pick it x y))
        + List.length (FSMInteractor.pick it x y))%nat.
Proof.
  intro H. rewrite (dispatch_closed_form it f RawMove x y H). simpl snd.
  unfold actionEvents. split.
  - intros r Hp.
    destruct (FSMInteractor.includes (FSMInteractor._visited it) r) eqn:E.
    + right. apply includes_In in E. split; [exact E|]. split.
      * rewrite !in_app_iff, !In_acts. right. right.
        split; [reflexivity|]. exists r. split; [reflexivity|].
        apply staysOf_In. split; assumption.
      * rewrite !in_app_iff, !In_acts.
        intros [[C _] | [[_ [r' [Er Hr]]] | [C _]]]; try discriminate C.
        injection Er as <-. apply entersOf_In in Hr. apply Hr. exact E.
    + left. apply includes_not_In in E. split; [exact E|]. split.
      * rewrite !in_app_iff, !In_acts. right. left.
        split; [reflexivity|]. exists r. split; [reflexivity|].
        apply entersOf_In. split; assumption.
      * rewrite !in_app_iff, !In_acts.
        intros [[C _] | [[C _] | [_ [r' [Er Hr]]]]]; try discriminate C.
        injection Er as <-. apply staysOf_In in Hr. apply E, Hr.
  - rewrite all_exit_filter. unfold acts.
    rewrite !length_app, !length_map.
    unfold entersOf, staysOf.
    rewrite (Nat.add_comm (List.length (filter _ (FSMInteractor.pick it x y)))).
    rewrite (filter_length
               (fun r => FSMInteractor.includes (FSMInteractor._visited it) r)).
    reflexivity.
Qed.

Lemma move_gives_enter_or_move_inside_witness :
  List.length (snd (FSMInteractor.dispatchRawEvent (G := sampleGeometry)
                      pressedInteractor RawMove 12 12)) = 2%nat.
Proof.
  exact (proj2 (move_gives_enter_or_move_inside (G := sampleGeometry)
                  pressedInteractor sampleFSM 12 12 eq_refl)).
Defined.

Lemma set_x_damage_witness :
  snd (FSMInteractor.set_x sampleInteractor 3) = [RootDamage sampleRoot]
  /\ FSMInteractor._x (fst (FSMInteractor.set_x sampleInteractor 3)) = 3.
Proof.
  apply (proj1 (set_x_damage sampleInteractor sampleRoot 3 eq_refl)).
  simpl. lia.
Defined.

Lemma set_y_damage_witness :
  FSMInteractor.set_y sampleInteractor 0 = (sampleInteractor, []).
Proof.
  apply (proj2 (set_y_damage sampleInteractor sampleRoot 0 eq_refl)).
  reflexivity.
Defined.

(** X10.  Moving the interactor to another Root declares damage to the
    Root it leaves and then to the Root it joins; detaching it declares
    damage to the Root it leaves only; setting the parent it already
    has does nothing. *)
Theorem set_parent_damages_old_then_new (it : FSMInteractor.t)
    (p q : Root) :
  FSMInteractor._parent it = Some p ->
  p <> q ->
  FSMInteractor.set_parent it (Some q)
  = (FSMInteractor.with_parent it (Some q), [RootDamage p; RootDamage q])
  /\ FSMInteractor.set_parent it None
     = (FSMInteractor.with_parent it None, [RootDamage p])
  /\ FSMInteractor.set_parent it (Some p) = (it, []).
Proof.
  intros Hp Hne. unfold FSMInteractor.set_parent, FSMInteractor.damage.
  rewrite Hp. simpl.
  assert (E : Root_eqb p q = false).
  { destruct (Root_eqb p q) eqn:E; [|reflexivity].
    apply Root_eqb_eq in E. contradiction. }
  rewrite E, (proj2 (Root_eqb_eq p p) eq_refl). simpl.
  repeat split.
Qed.

Lemma set_parent_damages_old_then_new_witness :
  snd (FSMInteractor.set_parent sampleInteractor (Some otherRoot))
  = [RootDamage sampleRoot; RootDamage otherRoot].
Proof.
  refine (f_equal snd
            (proj1 (set_parent_damages_old_then_new
                      sampleInteractor sampleRoot otherRoot eq_refl _))).
  discriminate.
Defined.

(** X11.  Setting [x] and then [y] leaves the interactor in the state
    that setting [position] to the pair leaves it in, and [position]
    then reads that pair back. *)
Theorem set_x_then_set_y_is_set_position_state (it : FSMInteractor.t)
    (vx vy : Z) :
  fst (FSMInteractor.set_y (fst (FSMInteractor.set_x it vx)) vy)
  = fst (FSMInteractor.set_position it (vx, vy))
  /\ FSMInteractor.position (fst (FSMInteractor.set_position it (vx, vy)))
     = (vx, vy).
Proof.
  destruct it as [f0 x0 y0 p0 v0].
  unfold FSMInteractor.set_x, FSMInteractor.set_y,
    FSMInteractor.set_position, FSMInteractor.position. simpl.
  rewrite (Z.eqb_sym vx x0), (Z.eqb_sym vy y0).
  destruct (x0 =? vx) eqn:Ex; destruct (y0 =? vy) eqn:Ey; simpl;
    try rewrite Ey; simpl;
    try (apply Z.eqb_eq in Ex; subst); try (apply Z.eqb_eq in Ey; subst);
    split; reflexivity.
Qed.

(** X12.  After a new FSM is installed by a completed load, the visited
    set still holds the old regions: the next dispatch delivers an
    [exit] for every visited region that the new FSM does not own. *)
Theorem reload_then_dispatch_exits_old_regions {G : RegionGeometry}
    (it : FSMInteractor.t) (f : FSM) (what : RawKind) (x y : Z)
    (r : Region) :
  In r (FSMInteractor._visited it) ->
  ~ In r (regions f) ->
  In (ActOnEvent exit (Some r))
     (snd (FSMInteractor.dispatchRawEvent
             (fst (FSMInteractor.loadDone it f)) what x y)).
Proof.
  intros Hv Hn.
  rewrite (dispatch_closed_form (fst (FSMInteractor.loadDone it f)) f
             what x y eq_refl).
  simpl snd. apply in_or_app. left. apply In_acts.
  split; [reflexivity|]. exists r. split; [reflexivity|].
  apply exitsOf_In. split; [exact Hv|].
  intro Hp.
  rewrite (pick_filter (fst (FSMInteractor.loadDone it f)) f x y eq_refl)
    in Hp.
  apply in_rev, filter_In in Hp. apply Hn, Hp.
Qed.

Lemma reload_then_dispatch_exits_old_regions_witness :
  In (ActOnEvent exit (Some regionA))
     (snd (FSMInteractor.dispatchRawEvent (G := sampleGeometry)
             (fst (FSMInteractor.loadDone pressedInteractor otherFSM))
             RawMove 5 5)).
Proof.
  apply (reload_then_dispatch_exits_old_regions (G := sampleGeometry)
           pressedInteractor otherFSM RawMove 5 5 regionA).
  - simpl. right. left. reflexivity.
  - simpl. intros [E | []]. discriminate E.
Defined.

(** X13.  After a failed load the interactor has no FSM: every
    dispatch returns it unchanged and delivers nothing, [pick] finds no
    region, [draw] leaves the context untouched, and the visited set is
    the one held before the load. *)
Theorem failed_load_switches_interactor_off {G : RegionGeometry}
    {P : RegionPlacement} {T : Type} {Tr : Translating T}
    (it : FSMInteractor.t) (jsonLoc : string) (what : RawKind) (x y : Z)
    (ctx : Canvas T) (showDebugging : bool) :
  FSMInteractor.dispatchRawEvent
    (fst (FSMInteractor.loadFailed it jsonLoc)) what x y
  = (fst (FSMInteractor.loadFailed it jsonLoc), [])
  /\ FSMInteractor.pick (fst (FSMInteractor.loadFailed it jsonLoc)) x y = []
  /\ FSMInteractor.draw (fst (FSMInteractor.loadFailed it jsonLoc))
       ctx showDebugging = ctx
  /\ FSMInteractor._visited (fst (FSMInteractor.loadFailed it jsonLoc))
     = FSMInteractor._visited it.
Proof. repeat split. Qed.

Lemma draw_loop_restores {P : RegionPlacement} {T : Type}
    {Tr : Translating T} (showDebugging : bool) (l : list Region)
    (ctx : Canvas T) :
  fold_left
    (fun ctx r =>
       ctxRestore
         (regionDraw r showDebugging
            (ctxTranslate (ctxSave ctx) (regionX r) (regionY r))))
    l ctx
  = mkCanvas (transform ctx) (saved ctx)
      (painted ctx
       ++ map (fun r =>
                 (r, translateBy (transform ctx) (regionX r) (regionY r),
                  showDebugging)) l).
Proof.
  revert ctx. induction l as [|a l IH]; intro ctx; simpl.
  - rewrite app_nil_r. destruct ctx; reflexivity.
  - rewrite IH. unfold ctxRestore, regionDraw, ctxTranslate, ctxSave.
    simpl. rewrite <- app_assoc. reflexivity.
Qed.

(** X14.  With an FSM attached, [draw] paints every region of the FSM
    once, in drawing order, each under the transform the context had on
    entry translated by that region's own position (translations do not
    add up from one region to the next), passes the debugging flag on
    unchanged, and returns the context with the transform and the stack
    of saved states it had on entry. *)
Theorem draw_paints_each_region_at_its_position {P : RegionPlacement}
    {T : Type} {Tr : Translating T} (it : FSMInteractor.t) (f : FSM)
    (ctx : Canvas T) (showDebugging : bool) :
  FSMInteractor._fsm it = Some f ->
  FSMInteractor.draw it ctx showDebugging
  = mkCanvas (transform ctx) (saved ctx)
      (painted ctx
       ++ map (fun r =>
                 (r, translateBy (transform ctx) (regionX r) (regionY r),
                  showDebugging)) (regions f)).
Proof.
  intro H. unfold FSMInteractor.draw. rewrite H. cbv zeta.
  apply draw_loop_restores.
Qed.

Lemma draw_paints_each_region_at_its_position_witness :
  FSMInteractor.draw (P := samplePlacement) (Tr := offsetTranslating)
    sampleInteractor sampleCanvas true
  = mkCanvas (100, 200) []
      [(regionA, (100, 200), true); (regionB, (105, 205), true)].
Proof.
  exact (draw_paints_each_region_at_its_position (P := samplePlacement)
           (Tr := offsetTranslating) sampleInteractor sampleFSM
           sampleCanvas true eq_refl).
Defined.

(* ================================================================== *)
(** ** Enters and exits over a run of samples *)
(* ================================================================== *)

Lemma Region_eqb_sym (a b : Region) : Region_eqb a b = Region_eqb b a.
Proof.
  unfold Region_eqb. rewrite Nat.eqb_sym, String.eqb_sym. reflexivity.
Qed.

Lemma countEvent_app (k : EvtType) (r : Region) (a b : list Effect) :
  countEvent k r (a ++ b) = (countEvent k r a + countEvent k r b)%nat.
Proof. unfold countEvent. rewrite filter_app, length_app. reflexivity. Qed.

Lemma countEvent_acts_other (k k' : EvtType) (r : Region)
    (l : list Region) :
  k' <> k -> countEvent k r (acts k' l) = 0%nat.
Proof.
  intro H. apply EvtType_eqb_neq in H. unfold countEvent, acts.
  induction l as [|a l IH]; simpl; [reflexivity|].
  rewrite H. simpl. exact IH.
Qed.

Lemma countEvent_acts_same (k : EvtType) (r : Region) (l : list Region) :
  NoDup l -> countEvent k r (acts k l) = holds l r.
Proof.
  unfold countEvent, acts, holds, FSMInteractor.includes.
  induction 1 as [|a l Hn Hd IH]; simpl; [reflexivity|].
  rewrite EvtType_eqb_refl, (Region_eqb_sym r a). simpl.
  destruct (Region_eqb a r) eqn:E; simpl.
  - apply Region_eqb_eq in E. subst a. rewrite IH.
    fold (FSMInteractor.includes l r).
    rewrite (proj2 (includes_not_In l r) Hn). reflexivity.
  - exact IH.
Qed.

Lemma includes_filter (q : Region -> bool) (l : list Region) (r : Region) :
  FSMInteractor.includes (filter q l) r
  = FSMInteractor.includes l r && q r.
Proof.
  destruct (FSMInteractor.includes (filter q l) r) eqn:E.
  - apply includes_In, filter_In in E. destruct E as [Hi Hq].
    rewrite (proj2 (includes_In l r) Hi), Hq. reflexivity.
  - symmetry. apply andb_false_iff.
    destruct (FSMInteractor.includes l r) eqn:Ei; [|left; reflexivity].
    right. destruct (q r) eqn:Eq; [|reflexivity].
    apply includes_not_In in E. exfalso. apply E, filter_In.
    split; [apply includes_In; exact Ei | exact Eq].
Qed.

(** One sample keeps the balance of enters and exits of each region. *)
Lemma dispatch_balance {G : RegionGeometry} (it : FSMInteractor.t)
    (f : FSM) (what : RawKind) (x y : Z) (r : Region) :
  FSMInteractor._fsm it = Some f ->
  NoDup (regions f) ->
  NoDup (FSMInteractor._visited it) ->
  (countEvent enter r (snd (FSMInteractor.dispatchRawEvent it what x y))
   + holds (FSMInteractor._visited it) r
   = countEvent exit r (snd (FSMInteractor.dispatchRawEvent it what x y))
     + holds (FSMInteractor.pick it x y) r)%nat.
Proof.
  intros H Nf Nv.
  assert (Np : NoDup (FSMInteractor.pick it x y)).
  { rewrite (pick_filter it f x y H). apply NoDup_rev, NoDup_filter, Nf. }
  rewrite (dispatch_closed_form it f what x y H). simpl snd.
  rewrite !countEvent_app.
  rewrite (countEvent_acts_other enter exit) by discriminate.
  rewrite (countEvent_acts_other exit enter) by discriminate.
  rewrite !countEvent_acts_same by (apply NoDup_filter; assumption).
  assert (A : countEvent enter r
                (actionEvents what (FSMInteractor._visited it)
                              (FSMInteractor.pick it x y)) = 0%nat
              /\ countEvent exit r
                   (actionEvents what (FSMInteractor._visited it)
                                 (FSMInteractor.pick it x y)) = 0%nat).
  { destruct what; unfold actionEvents;
      try (split; apply countEvent_acts_other; discriminate).
    destruct (FSMInteractor.pick it x y);
      [split; reflexivity
      | split; apply countEvent_acts_other; discriminate]. }
  destruct A as [-> ->].
  unfold holds, exitsOf, entersOf. rewrite !includes_filter.
  destruct (FSMInteractor.includes (FSMInteractor._visited it) r),
           (FSMInteractor.includes (FSMInteractor.pick it x y) r);
    reflexivity.
Qed.

Lemma dispatchAll_balance {G : RegionGeometry} (f : FSM)
    (samples : list (RawKind * Z * Z)) :
  NoDup (regions f) ->
  forall it,
    FSMInteractor._fsm it = Some f ->
    NoDup (FSMInteractor._visited it) ->
    FSMInteractor._fsm (fst (dispatchAll it samples)) = Some f
    /\ NoDup (FSMInteractor._visited (fst (dispatchAll it samples)))
    /\ forall r,
         (countEvent enter r (snd (dispatchAll it samples))
          + holds (FSMInteractor._visited it) r
          = countEvent exit r (snd (dispatchAll it samples))
            + holds (FSMInteractor._visited (fst (dispatchAll it samples)))
                    r)%nat.
Proof.
  intro Nf. induction samples as [|[[what x] y] rest IH]; intros it H Nv.
  - simpl. split; [exact H|]. split; [exact Nv|]. intro r.
    reflexivity.
  - simpl.
    pose proof (dispatch_closed_form it f what x y H) as C.
    destruct (FSMInteractor.dispatchRawEvent it what x y) as [it1 tr1] eqn:D.
    injection C as E1 Etr.
    assert (H1 : FSMInteractor._fsm it1 = Some f) by (subst it1; exact H).
    assert (N1 : NoDup (FSMInteractor._visited it1)).
    { subst it1. simpl. rewrite (pick_filter it f x y H).
      apply NoDup_rev, NoDup_filter, Nf. }
    destruct (IH it1 H1 N1) as [Hf [Hn Hb]].
    destruct (dispatchAll it1 rest) as [it2 tr2] eqn:D2. simpl in *.
    split; [exact Hf|]. split; [exact Hn|]. intro r.
    rewrite !countEvent_app.
    pose proof (dispatch_balance it f what x y r H Nf Nv) as B.
    rewrite D in B. simpl in B.
    specialize (Hb r).
    assert (V1 : FSMInteractor._visited it1 = FSMInteractor.pick it x y)
      by (rewrite E1; reflexivity).
    rewrite V1 in Hb. lia.
Qed.

(** X15.  For an interactor built with an FSM whose regions are
    pairwise distinct, after any run of raw samples each region has
    received exactly one more [enter] than [exit] if it is in the
    visited set, and as many of each otherwise. *)
Theorem enters_balance_exits_over_a_run {G : RegionGeometry} (f : FSM)
    (x0 y0 : Z) (p : option Root) (samples : list (RawKind * Z * Z))
    (r : Region) :
  NoDup (regions f) ->
  countEvent enter r
    (snd (dispatchAll (FSMInteractor.new (Some f) x0 y0 p) samples))
  = (countEvent exit r
       (snd (dispatchAll (FSMInteractor.new (Some f) x0 y0 p) samples))
     + holds (FSMInteractor._visited
                (fst (dispatchAll (FSMInteractor.new (Some f) x0 y0 p)
                        samples))) r)%nat.
Proof.
  intro Nf.
  destruct (dispatchAll_balance f samples Nf
              (FSMInteractor.new (Some f) x0 y0 p) eq_refl (NoDup_nil _))
    as [_ [_ B]].
  specialize (B r). simpl FSMInteractor._visited in B at 1.
  unfold holds at 1 in B. simpl in B. rewrite Nat.add_0_r in B. exact B.
Qed.

Lemma sampleFSM_NoDup : NoDup (regions sampleFSM).
Proof.
  simpl. constructor.
  - simpl. intros [E | []]. discriminate E.
  - constructor; [intros [] | constructor].
Defined.

Lemma enters_balance_exits_over_a_run_witness :
  countEvent enter regionA
    (snd (dispatchAll (G := sampleGeometry) sampleInteractor
            [(RawPress, 5, 5); (RawMove, 12, 12); (RawMove, 2, 2);
             (RawRelease, 50, 50)]))
  = 2%nat.
Proof.
  exact (enters_balance_exits_over_a_run (G := sampleGeometry) sampleFSM
           0 0 (Some sampleRoot)
           [(RawPress, 5, 5); (RawMove, 12, 12); (RawMove, 2, 2);
            (RawRelease, 50, 50)] regionA sampleFSM_NoDup).
Defined.

(* ================================================================== *)
(** ** Further properties of the event specification *)
(* ================================================================== *)

Lemma scanRegions_first (l : list Region) (name : string) (r : Region) :
  EventSpec.scanRegions l name = Some r
  <-> exists l1 l2, l = l1 ++ r :: l2 /\ rname r = name
                    /\ EventSpec.nameAbsent name l1 = true.
Proof.
  induction l as [|a l IH]; simpl.
  - split; [discriminate|].
    intros [l1 [l2 [E _]]]. destruct l1; discriminate E.
  - destruct (rname a =? name)%string eqn:Ea.
    + split.
      * intro H. injection H as <-. exists [], l.
        split; [reflexivity|]. split; [|reflexivity].
        apply String.eqb_eq. exact Ea.
      * intros [l1 [l2 [E [Hn Ha]]]]. destruct l1 as [|b l1].
        -- simpl in E. injection E as -> _. reflexivity.
        -- simpl in E. injection E as <- _.
           unfold EventSpec.nameAbsent in Ha. simpl in Ha.
           rewrite Ea in Ha. discriminate Ha.
    + rewrite IH. split.
      * intros [l1 [l2 [E [Hn Ha]]]]. exists (a :: l1), l2.
        split; [simpl; rewrite E; reflexivity|]. split; [exact Hn|].
        unfold EventSpec.nameAbsent in *. simpl. rewrite Ea. exact Ha.
      * intros [l1 [l2 [E [Hn Ha]]]]. destruct l1 as [|b l1].
        -- simpl in E. injection E as -> _.
           apply String.eqb_eq in Hn. rewrite Hn in Ea. discriminate Ea.
        -- simpl in E. injection E as <- E. exists l1, l2.
           split; [exact E|]. split; [exact Hn|].
           unfold EventSpec.nameAbsent in *. simpl in Ha.
           rewrite Ea in Ha. exact Ha.
Qed.

(** X16.  Binding a fresh specification binds it to a region exactly
    when its name is not ["*"] and the region is the first of the list
    that carries the name; [Err.emit] is then not called. *)
Theorem bindRegion_binds_first_region_of_that_name (k : EvtType)
    (name : string) (l : list Region) (r : Region) :
  (EventSpec.region (fst (EventSpec.bindRegion (EventSpec.new k name) l))
   = Some r
   <-> name <> "*"
       /\ exists l1 l2, l = l1 ++ r :: l2 /\ rname r = name
                        /\ EventSpec.nameAbsent name l1 = true)
  /\ (EventSpec.region (fst (EventSpec.bindRegion (EventSpec.new k name) l))
      = Some r ->
      snd (EventSpec.bindRegion (EventSpec.new k name) l) = []).
Proof.
  rewrite <- scanRegions_first.
  unfold EventSpec.bindRegion. simpl.
  destruct (name =? "*")%string eqn:En; simpl.
  - apply String.eqb_eq in En. split.
    + split; [discriminate | intros [C _]; contradiction].
    + discriminate.
  - apply String.eqb_neq in En.
    destruct (EventSpec.scanRegions l name) as [r'|] eqn:Es; simpl.
    + split; [|reflexivity]. split.
      * intro H. split; assumption.
      * intros [_ H]. exact H.
    + assert (N : EventSpec.region
                    (fst (if EvtType_eqb k nevermatch
                          then (EventSpec.new k name, [])
                          else if (EvtType_eqb k release_none
                                   || EvtType_eqb k any)
                                  && (name =? "")%string
                               then (EventSpec.set_region
                                       (EventSpec.new k name) None, [])
                               else (EventSpec.new k name,
                                     [ErrEmit (EventSpec.bindErrorMessage
                                                 name)]))) = None).
      { destruct (EvtType_eqb k nevermatch); [reflexivity|].
        destruct ((EvtType_eqb k release_none || EvtType_eqb k any)
                  && (name =? "")%string); reflexivity. }
      rewrite N. split.
      * split; [discriminate | intros [_ C]; discriminate C].
      * discriminate.
Qed.

(** X17.  [bindRegion] calls [Err.emit], once and with the message that
    quotes the region name, exactly when the name is not ["*"], no
    region of the list carries it, and the specification is not of an
    exempt form; otherwise it reports nothing. *)
Theorem bindRegion_reports_exactly_unresolved_names (es : EventSpec.t)
    (l : list Region) :
  snd (EventSpec.bindRegion es l)
  = if negb (EventSpec.regionName es =? "*")%string
       && EventSpec.nameAbsent (EventSpec.regionName es) l
       && negb (EventSpec.exempt es)
    then [ErrEmit (EventSpec.bindErrorMessage (EventSpec.regionName es))]
    else [].
Proof.
  unfold EventSpec.bindRegion, EventSpec.exempt.
  destruct (EventSpec.regionName es =? "*")%string; simpl; [reflexivity|].
  destruct (EventSpec.scanRegions l (EventSpec.regionName es)) as [r|] eqn:Es.
  - apply scanRegions_found in Es. destruct Es as [Hi Hn].
    assert (A : EventSpec.nameAbsent (EventSpec.regionName es) l = false).
    { unfold EventSpec.nameAbsent. apply negb_false_iff, existsb_exists.
      exists r. split; [exact Hi | apply String.eqb_eq; exact Hn]. }
    rewrite A. reflexivity.
  - assert (A : EventSpec.nameAbsent (EventSpec.regionName es) l = true).
    { destruct (EventSpec.nameAbsent (EventSpec.regionName es) l) eqn:A;
        [reflexivity|].
      unfold EventSpec.nameAbsent in A.
      apply negb_false_iff, existsb_exists in A.
      destruct A as [r [Hi Hn]]. apply String.eqb_eq in Hn.
      assert (X : exists l1 l2, l = l1 ++ r :: l2) by (apply in_split, Hi).
      clear Hi. exfalso. revert Es.
      destruct X as [l1 [l2 ->]]. clear -Hn.
      induction l1 as [|a l1 IH]; simpl.
      - rewrite (proj2 (String.eqb_eq _ _) Hn). discriminate.
      - destruct (rname a =? EventSpec.regionName es)%string;
          [discriminate | exact IH]. }
    rewrite A. simpl.
    destruct (EvtType_eqb (EventSpec.evtType es) nevermatch); simpl;
      [reflexivity|].
    destruct ((EvtType_eqb (EventSpec.evtType es) release_none
               || EvtType_eqb (EventSpec.evtType es) any)
              && (EventSpec.regionName es =? "")%string); reflexivity.
Qed.

(** X18.  Binding again against the same list changes nothing: the
    specification and the report are those of the first binding. *)
Theorem bindRegion_again_is_bindRegion_once (es : EventSpec.t)
    (l : list Region) :
  EventSpec.bindRegion (fst (EventSpec.bindRegion es l)) l
  = EventSpec.bindRegion es l.
Proof.
  unfold EventSpec.bindRegion.
  destruct (EventSpec.regionName es =? "*")%string eqn:En; simpl.
  - rewrite En. reflexivity.
  - destruct (EventSpec.scanRegions l (EventSpec.regionName es)) eqn:Es;
      simpl.
    + rewrite En, Es. reflexivity.
    + destruct (EvtType_eqb (EventSpec.evtType es) nevermatch) eqn:Ek;
        simpl.
      * rewrite En, Es, Ek. reflexivity.
      * destruct ((EvtType_eqb (EventSpec.evtType es) release_none
                   || EvtType_eqb (EventSpec.evtType es) any)
                  && (EventSpec.regionName es =? "")%string) eqn:Ex; simpl.
        -- rewrite En, Es, Ek, Ex. reflexivity.
        -- rewrite En, Es, Ek, Ex. reflexivity.
Qed.

(** X19.  A specification whose name is not ["*"] and whose kind is not
    [release_none] matches an event exactly when the event has the
    specification's kind and the very region the specification holds
    (none, when it is unbound); a region of the same name that is
    another object does not match. *)
Theorem match_needs_same_kind_and_same_region (es : EventSpec.t)
    (k : EvtType) (regn : option Region) :
  EventSpec.regionName es <> "*" ->
  EventSpec.evtType es <> release_none ->
  (EventSpec.match_ es k regn = true
   <-> k = EventSpec.evtType es /\ regn = EventSpec.region es).
Proof.
  intros Hn Hk. unfold EventSpec.match_.
  apply String.eqb_neq in Hn. rewrite Hn. simpl andb. cbv iota.
  apply EvtType_eqb_neq in Hk. rewrite Hk.
  rewrite andb_true_iff, EvtType_eqb_eq, optRegion_eqb_eq. reflexivity.
Qed.

Lemma match_needs_same_kind_and_same_region_witness :
  EventSpec.match_
    (fst (EventSpec.bindRegion (EventSpec.new press "A")
            [regionA; regionB]))
    press (Some (mkRegion 7 "A")) = true
  <-> press = press /\ Some (mkRegion 7 "A") = Some regionA.
Proof.
  apply (match_needs_same_kind_and_same_region
           (fst (EventSpec.bindRegion (EventSpec.new press "A")
                   [regionA; regionB]))
           press (Some (mkRegion 7 "A"))).
  - simpl. discriminate.
  - simpl. discriminate.
Defined.

(** X20.  A [release_none] specification whose name is not ["*"]
    matches exactly the events of kind [release_none], whatever region
    comes with the event and whatever region the specification
    holds. *)
Theorem release_none_spec_ignores_region (es : EventSpec.t)
    (k : EvtType) (regn : option Region) :
  EventSpec.evtType es = release_none ->
  EventSpec.regionName es <> "*" ->
  EventSpec.match_ es k regn = EvtType_eqb k release_none.
Proof.
  intros Hk Hn. unfold EventSpec.match_.
  apply String.eqb_neq in Hn. rewrite Hn, Hk. reflexivity.
Qed.

Lemma release_none_spec_ignores_region_witness :
  EventSpec.match_
    (fst (EventSpec.bindRegion (EventSpec.new release_none "A")
            [regionA; regionB]))
    release_none (Some regionB) = true.
Proof.
  apply (release_none_spec_ignores_region
           (fst (EventSpec.bindRegion (EventSpec.new release_none "A")
                   [regionA; regionB]))
           release_none (Some regionB)).
  - reflexivity.
  - simpl. discriminate.
Defined.

Lemma evtType_of_string_evtTypeString (k : EvtType) :
  evtType_of_string (evtTypeString k) = Some k.
Proof. destruct k; reflexivity. Qed.

(** X21.  [fromJson], with [Check.limitedString] and [Check.stringVal]
    as described for them: a kind written as one of the eight strings
    and a region written as a string give the unbound specification of
    that kind and name, and whatever stands for the kind, a region
    written as a string always gives an unbound specification of that
    name. *)
Theorem fromJson_reads_kind_and_name (v : EventSpec.JsVal)
    (k : EvtType) (name : string) :
  EventSpec.fromJson (EventSpec.JsString (evtTypeString k))
                     (EventSpec.JsString name)
  = Some (EventSpec.new k name)
  /\ exists k', EventSpec.fromJson v (EventSpec.JsString name)
                = Some (EventSpec.new k' name).
Proof.
  split.
  - destruct k; reflexivity.
  - unfold EventSpec.fromJson, EventSpec.limitedString,
      EventSpec.stringVal. cbv zeta.
    destruct v as [s|]; [|exists nevermatch; reflexivity].
    destruct (existsb (String.eqb s) evtTypeStrings) eqn:E;
      [|exists nevermatch; reflexivity].
    apply existsb_exists in E. destruct E as [s' [Hin Hs]].
    apply String.eqb_eq in Hs. subst s'.
    unfold evtTypeStrings in Hin. apply in_map_iff in Hin.
    destruct Hin as [k' [<- _]]. exists k'.
    rewrite evtType_of_string_evtTypeString. reflexivity.
Qed.

Lemma string_append_assoc (a b c : string) :
  ((a ++ b) ++ c = a ++ (b ++ c))%string.
Proof.
  induction a as [|ch a IH]; simpl; [reflexivity|]. rewrite IH. reflexivity.
Qed.

Lemma string_append_nil_r (a : string) : (a ++ "")%string = a.
Proof.
  induction a as [|ch a IH]; simpl; [reflexivity|]. rewrite IH. reflexivity.
Qed.

Lemma string_length_append (a b : string) :
  String.length (a ++ b) = (String.length a + String.length b)%nat.
Proof.
  induction a as [|ch a IH]; simpl; [reflexivity|]. rewrite IH. reflexivity.
Qed.

Lemma indentLoop_indentation (n : nat) (s : string) :
  EventSpec.indentLoop n s = (s ++ indentation n)%string.
Proof.
  revert s. induction n as [|n IH]; intro s; simpl.
  - symmetry. apply string_append_nil_r.
  - rewrite IH, string_append_assoc. reflexivity.
Qed.

Lemma indentation_length (n : nat) :
  String.length (indentation n) = (2 * n)%nat.
Proof. induction n as [|n IH]; simpl; [reflexivity|]. rewrite IH. lia. Qed.

(** X22.  [debugString(indent)] is [debugString(0)] behind [indent]
    copies of the two-space indent, so twice [indent] characters
    longer; [debugString(0)] is kind, space and region name, followed
    by [" unbound"] exactly when no region is bound. *)
Theorem debugString_indents_by_two_spaces (es : EventSpec.t) (n : nat) :
  EventSpec.debugString es n
  = (indentation n ++ EventSpec.debugString es 0)%string
  /\ String.length (EventSpec.debugString es n)
     = (2 * n + String.length (EventSpec.debugString es 0))%nat
  /\ EventSpec.debugString es 0
     = (evtTypeString (EventSpec.evtType es) ++ " "
        ++ EventSpec.regionName es
        ++ match EventSpec.region es with
           | None => " unbound"
           | Some _ => ""
           end)%string.
Proof.
  assert (A : EventSpec.debugString es n
              = (indentation n ++ EventSpec.debugString es 0)%string).
  { unfold EventSpec.debugString. cbv zeta.
    rewrite indentLoop_indentation. simpl.
    destruct (EventSpec.region es);
      [reflexivity | apply string_append_assoc]. }
  split; [exact A|]. split.
  - rewrite A, string_length_append, indentation_length. reflexivity.
  - unfold EventSpec.debugString. cbn [EventSpec.indentLoop].
    destruct (EventSpec.region es).
    + rewrite string_append_nil_r. reflexivity.
    + simpl. rewrite string_append_assoc. reflexivity.
Qed.

Lemma string_append_paren_inj (a b : string) :
  (a ++ ")" = b ++ ")")%string -> a = b.
Proof.
  revert b. induction a as [|ch a IH]; intros [|ch' b] H; simpl in H.
  - reflexivity.
  - injection H as _ H. destruct b; discriminate H.
  - injection H as _ H. destruct a; discriminate H.
  - injection H as -> H. f_equal. apply IH. exact H.
Qed.

(** X23.  [debugTag] tells specifications apart by kind and region
    name: two specifications with the same tag have the same kind and
    the same region name. *)
Theorem debugTag_determines_kind_and_name (a b : EventSpec.t) :
  EventSpec.debugTag a = EventSpec.debugTag b ->
  EventSpec.evtType a = EventSpec.evtType b
  /\ EventSpec.regionName a = EventSpec.regionName b.
Proof.
  unfold EventSpec.debugTag.
  destruct a as [ka na ra], b as [kb nb rb]. simpl.
  intro H. injection H as H.
  destruct ka, kb; simpl in H;
    try (exfalso; inversion H; fail);
    (split; [reflexivity|]; inversion H as [H'];
     apply string_append_paren_inj; exact H').
Qed.

Lemma debugTag_determines_kind_and_name_witness :
  EventSpec.evtType (EventSpec.new press "A")
  = EventSpec.evtType
      (fst (EventSpec.bindRegion (EventSpec.new press "A")
              [regionA; regionB]))
  /\ EventSpec.regionName (EventSpec.new press "A")
     = EventSpec.regionName
         (fst (EventSpec.bindRegion (EventSpec.new press "A")
                 [regionA; regionB])).
Proof.
  apply (debugTag_determines_kind_and_name (EventSpec.new press "A")
           (fst (EventSpec.bindRegion (EventSpec.new press "A")
                   [regionA; regionB]))).
  reflexivity.
Defined.
